(** * react-snake: the tick-driven snake engine of [src/App.jsx] and
    [src/SnakeGame.jsx], embedded as pure state transformers.

    Both components keep the game in independent React state fields and
    change them from event handlers.  Every handler is re-created whenever
    one of the fields it reads changes (its [useCallback] dependency list)
    and is re-registered by [useEffect] after the render, so a handler that
    fires sees the committed values of all fields.  One handler invocation
    is therefore modelled as one function from the record of all fields to
    the record after the batched updates of that invocation.

    Coordinates and scores are JavaScript numbers holding small integers;
    they are modelled in [Z].  [Math.random] is modelled by an explicit
    list of draws that the sampling loop consumes. *)

From Stdlib Require Import ZArith List String Bool Lia.
From Stdlib Require Import Ascii Decimal DecimalString.
Import ListNotations.
Open Scope Z_scope.

(** ** Declarations shared verbatim by the two files *)

(** An object literal [{x, y}]: a grid cell, or a direction vector. *)
Record Cell : Type := mkCell { x : Z; y : Z }.

Definition GRID_SIZE : Z := 20.
Definition INITIAL_SNAKE : list Cell := [mkCell 10 10].
Definition INITIAL_FOOD : Cell := mkCell 15 15.
Definition INITIAL_DIRECTION : Cell := mkCell 0 (-1).

(** The keys of [SPEED_SETTINGS] and the interval each one selects. *)
Inductive SpeedKey : Type := slow | normal | fast | insane.

Definition interval (k : SpeedKey) : Z :=
  match k with
  | slow => 300
  | normal => 200
  | fast => 150
  | insane => 100
  end.

(** The arrow function [segment => segment.x === c.x && segment.y === c.y]
    handed to [Array.prototype.some] ([existsb] below). *)
Definition same_cell (c segment : Cell) : bool :=
  (x segment =? x c) && (y segment =? y c).

(** [generateFood]: the do-while loop draws a candidate and repeats while
    the candidate lies on [snake].  Each element of [rand] is one draw
    [{x: Math.floor(Math.random() * GRID_SIZE), y: Math.floor(...)}]; the
    function returns the chosen cell and the unused draws, and [None] when
    the loop is still running after every supplied draw. *)
Fixpoint generateFood (snake : list Cell) (rand : list Cell)
  : option (Cell * list Cell) :=
  match rand with
  | [] => None
  | newFood :: rest =>
      if existsb (same_cell newFood) snake
      then generateFood snake rest
      else Some (newFood, rest)
  end.

(** A draw as [Math.floor(Math.random() * GRID_SIZE)] can produce it. *)
Definition in_grid (c : Cell) : Prop :=
  0 <= x c < GRID_SIZE /\ 0 <= y c < GRID_SIZE.

(** The head position computed by [moveSnake] from the first segment. *)
Definition advance (segment0 d : Cell) : Cell :=
  mkCell (x segment0 + x d) (y segment0 + y d).

(** The wall test of [moveSnake]. *)
Definition hits_wall (head : Cell) : bool :=
  (x head <? 0) || (x head >=? GRID_SIZE) || (y head <? 0) || (y head >=? GRID_SIZE).

(** *** Rendering, identical in the two files *)

(** The values of the loop counters [row] and [col] of [renderGrid]:
    0, 1, ..., [GRID_SIZE - 1]. *)
Definition indices : list Z := map Z.of_nat (seq 0 (Z.to_nat GRID_SIZE)).

(** [snake[0] && snake[0].x === col && snake[0].y === row]; [snake[0]] is
    [undefined], hence falsy, on an empty array. *)
Definition is_head (snake : list Cell) (row col : Z) : bool :=
  match snake with
  | [] => false
  | segment0 :: _ => (x segment0 =? col) && (y segment0 =? row)
  end.

(** [Array.prototype.some] with a callback that also takes the index. *)
Fixpoint some_indexed (f : Cell -> Z -> bool) (index : Z) (l : list Cell) : bool :=
  match l with
  | [] => false
  | segment :: rest => f segment index || some_indexed f (index + 1) rest
  end.

(** [snake.some((segment, index) => index > 0 && segment.x === col &&
    segment.y === row)]. *)
Definition is_body (snake : list Cell) (row col : Z) : bool :=
  some_indexed
    (fun segment index => (index >? 0) && (x segment =? col) && (y segment =? row))
    0 snake.

(** [food.x === col && food.y === row]. *)
Definition is_food (food : Cell) (row col : Z) : bool :=
  (x food =? col) && (y food =? row).

(** The value of [cellClass] when the cell is pushed. *)
Definition cellClass (snake : list Cell) (food : Cell) (row col : Z) : string :=
  ("w-4 h-4 border border-gray-800 " ++
   (if is_head snake row col then "bg-lime-400 shadow-inner relative"
    else if is_body snake row col then "bg-green-500 shadow-inner"
    else if is_food food row col then "bg-red-500 shadow-inner relative"
    else "bg-gray-900"))%string.

(** One [div] of the board: its key (the pair printed as [row-col]), its
    class, and whether it holds the two eyes and the white food dot. *)
Record GridCell : Type := mkGridCell {
  key_row : Z;
  key_col : Z;
  className : string;
  eyes : bool;
  dot : bool
}.

Definition gridCell (snake : list Cell) (food : Cell) (row col : Z) : GridCell :=
  mkGridCell row col (cellClass snake food row col)
             (is_head snake row col) (is_food food row col).

(** [renderGrid]: the two nested loops push the cells row by row. *)
Definition renderGrid (snake : list Cell) (food : Cell) : list GridCell :=
  flat_map (fun row => map (fun col => gridCell snake food row col) indices) indices.

(** [Number.prototype.toString] on an integer. *)
Definition toString (n : Z) : string := NilZero.string_of_int (Z.to_int n).

(** [String.prototype.padStart] with a filler of one character. *)
Definition padStart (targetLength : nat) (filler : ascii) (s : string) : string :=
  (string_of_list_ascii (repeat filler (targetLength - String.length s)) ++ s)%string.

(** The text shown after SCORE: and HIGH:,
    [score.toString().padStart(4, '0')]. *)
Definition scoreText (n : Z) : string := padStart 4 "0"%char (toString n).

(** ** src/App.jsx *)

Module App.

Record State : Type := mkState {
  snake : list Cell;
  food : Cell;
  direction : Cell;
  gameOver : bool;
  score : Z;
  isPlaying : bool;
  highScore : Z;
  gameSpeed : SpeedKey
}.

Definition setSnake (v : list Cell) (st : State) : State :=
  mkState v (food st) (direction st) (gameOver st) (score st)
          (isPlaying st) (highScore st) (gameSpeed st).
Definition setFood (v : Cell) (st : State) : State :=
  mkState (snake st) v (direction st) (gameOver st) (score st)
          (isPlaying st) (highScore st) (gameSpeed st).
Definition setDirection (v : Cell) (st : State) : State :=
  mkState (snake st) (food st) v (gameOver st) (score st)
          (isPlaying st) (highScore st) (gameSpeed st).
Definition setGameOver (v : bool) (st : State) : State :=
  mkState (snake st) (food st) (direction st) v (score st)
          (isPlaying st) (highScore st) (gameSpeed st).
Definition setScore (v : Z) (st : State) : State :=
  mkState (snake st) (food st) (direction st) (gameOver st) v
          (isPlaying st) (highScore st) (gameSpeed st).
Definition setIsPlaying (v : bool) (st : State) : State :=
  mkState (snake st) (food st) (direction st) (gameOver st) (score st)
          v (highScore st) (gameSpeed st).
Definition setHighScore (v : Z) (st : State) : State :=
  mkState (snake st) (food st) (direction st) (gameOver st) (score st)
          (isPlaying st) v (gameSpeed st).

(** The values of the [useState] initialisers. *)
Definition initial : State :=
  mkState INITIAL_SNAKE INITIAL_FOOD INITIAL_DIRECTION false 0 false 0 normal.

Definition resetGame (st : State) : State :=
  setIsPlaying false
    (setScore 0
       (setGameOver false
          (setDirection INITIAL_DIRECTION
             (setFood INITIAL_FOOD (setSnake INITIAL_SNAKE st))))).

Definition startGame (st : State) : State :=
  setIsPlaying true (resetGame st).

(** The two identical collision blocks of [moveSnake]. *)
Definition collide (st : State) : State :=
  let st1 := setIsPlaying false (setGameOver true st) in
  if score st >? highScore st then setHighScore (score st) st1 else st1.

(** [moveSnake] (lines 51-93).  With an empty snake [newSnake[0]] is
    [undefined], the head coordinates are [NaN], every comparison is
    false and the pushed head is popped again: nothing changes. *)
Definition moveSnake (st : State) (rand : list Cell)
  : option (State * list Cell) :=
  if negb (isPlaying st) || gameOver st then Some (st, rand) else
  match snake st with
  | [] => Some (st, rand)
  | segment0 :: _ =>
      let head := advance segment0 (direction st) in
      if hits_wall head then Some (collide st, rand)
      else if existsb (same_cell head) (snake st) then Some (collide st, rand)
      else if (x head =? x (food st)) && (y head =? y (food st)) then
        match generateFood (snake st) rand with
        | Some (newFood, rand') =>
            Some (setFood newFood
                    (setScore (score st + 10)
                       (setSnake (head :: snake st) st)), rand')
        | None => None
        end
      else Some (setSnake (removelast (head :: snake st)) st, rand)
  end.

(** The phase the two flags stand for. *)
Definition playing (st : State) : bool :=
  isPlaying st && negb (gameOver st).

(** [handleKeyPress] (lines 95-112), applied to [e.key]. *)
Definition handleKeyPress (key : string) (st : State) : State :=
  if negb (isPlaying st) then st
  else if (key =? "ArrowUp")%string then
    if negb (y (direction st) =? 1) then setDirection (mkCell 0 (-1)) st else st
  else if (key =? "ArrowDown")%string then
    if negb (y (direction st) =? -1) then setDirection (mkCell 0 1) st else st
  else if (key =? "ArrowLeft")%string then
    if negb (x (direction st) =? 1) then setDirection (mkCell (-1) 0) st else st
  else if (key =? "ArrowRight")%string then
    if negb (x (direction st) =? -1) then setDirection (mkCell 1 0) st else st
  else st.

Definition setGameSpeed (v : SpeedKey) (st : State) : State :=
  mkState (snake st) (food st) (direction st) (gameOver st) (score st)
          (isPlaying st) (highScore st) v.

(** Everything that can happen to the component of [App.jsx]. *)
Inductive Event : Type :=
| Tick
| KeyDown (key : string)
| ClickStart
| ClickReset
| ClickSpeed (k : SpeedKey).

(** One event.  PLAY AGAIN is rendered when [gameOver] holds and START
    GAME when neither flag holds (lines 230-259). *)
Definition step (e : Event) (st : State) (rand : list Cell)
  : option (State * list Cell) :=
  match e with
  | Tick => moveSnake st rand
  | KeyDown key => Some (handleKeyPress key st, rand)
  | ClickStart =>
      if gameOver st || (negb (isPlaying st) && negb (gameOver st))
      then Some (startGame st, rand) else Some (st, rand)
  | ClickReset => Some (resetGame st, rand)
  | ClickSpeed k => Some (setGameSpeed k st, rand)
  end.

Fixpoint run (evs : list Event) (st : State) (rand : list Cell)
  : option (State * list Cell) :=
  match evs with
  | [] => Some (st, rand)
  | e :: evs' =>
      match step e st rand with
      | Some (st', rand') => run evs' st' rand'
      | None => None
      end
  end.

Definition reachable (st : State) : Prop :=
  exists evs rand rand', run evs initial rand = Some (st, rand').

End App.

(** ** src/SnakeGame.jsx *)

Module SnakeGame.

(** The four values of [gameState] (line 24). *)
Inductive GameState : Type := waiting | playing | paused | gameOver.

Definition GameState_eqb (a b : GameState) : bool :=
  match a, b with
  | waiting, waiting | playing, playing
  | paused, paused | gameOver, gameOver => true
  | _, _ => false
  end.

Record State : Type := mkState {
  snake : list Cell;
  food : Cell;
  direction : Cell;
  score : Z;
  highScore : Z;
  gameSpeed : SpeedKey;
  gameState : GameState;
  (** [arrowKeyProcessingRef.current]: [null] or the key being processed. *)
  arrowKeyProcessingRef : option string
}.

Definition setSnake (v : list Cell) (st : State) : State :=
  mkState v (food st) (direction st) (score st) (highScore st)
          (gameSpeed st) (gameState st) (arrowKeyProcessingRef st).
Definition setFood (v : Cell) (st : State) : State :=
  mkState (snake st) v (direction st) (score st) (highScore st)
          (gameSpeed st) (gameState st) (arrowKeyProcessingRef st).
Definition setDirection (v : Cell) (st : State) : State :=
  mkState (snake st) (food st) v (score st) (highScore st)
          (gameSpeed st) (gameState st) (arrowKeyProcessingRef st).
Definition setScore (v : Z) (st : State) : State :=
  mkState (snake st) (food st) (direction st) v (highScore st)
          (gameSpeed st) (gameState st) (arrowKeyProcessingRef st).
Definition setHighScore (v : Z) (st : State) : State :=
  mkState (snake st) (food st) (direction st) (score st) v
          (gameSpeed st) (gameState st) (arrowKeyProcessingRef st).
Definition setGameSpeed (v : SpeedKey) (st : State) : State :=
  mkState (snake st) (food st) (direction st) (score st) (highScore st)
          v (gameState st) (arrowKeyProcessingRef st).
Definition setGameState (v : GameState) (st : State) : State :=
  mkState (snake st) (food st) (direction st) (score st) (highScore st)
          (gameSpeed st) v (arrowKeyProcessingRef st).
(** The assignment [arrowKeyProcessingRef.current = v]. *)
Definition setArrowKeyProcessingRef (v : option string) (st : State) : State :=
  mkState (snake st) (food st) (direction st) (score st) (highScore st)
          (gameSpeed st) (gameState st) v.

(** The values of the [useState] and [useRef] initialisers. *)
Definition initial : State :=
  mkState INITIAL_SNAKE INITIAL_FOOD INITIAL_DIRECTION 0 0 normal waiting None.

(** [resetGame] (lines 39-45). *)
Definition resetGame (st : State) : State :=
  setGameState waiting
    (setScore 0
       (setDirection INITIAL_DIRECTION
          (setFood INITIAL_FOOD (setSnake INITIAL_SNAKE st)))).

(** [startGame] (lines 47-50). *)
Definition startGame (st : State) : State :=
  setGameState playing (resetGame st).

(** [togglePause] (lines 52-59): both tests read the [gameState] of the
    render the callback was created in. *)
Definition togglePause (st : State) : State :=
  let st1 := if GameState_eqb (gameState st) playing
             then setGameState paused st else st in
  if GameState_eqb (gameState st) paused
  then setGameState playing st1 else st1.

(** The two identical collision blocks of [moveSnake] (lines 73-77 and
    82-86); the snake updater returns [currentSnake]. *)
Definition collide (st : State) : State :=
  let st1 := setGameState gameOver st in
  if score st >? highScore st then setHighScore (score st) st1 else st1.

(** The updater handed to [setSnake] together with the state changes it
    requests (lines 64-100).  [generateFood] is the callback created in
    the same render, so it scans the rendered [snake], the array the
    updater receives as [currentSnake].  With an empty snake the head
    coordinates are [NaN], every comparison is false and the pushed head
    is popped again. *)
Definition updateSnake (st : State) (rand : list Cell)
  : option (State * list Cell) :=
  match snake st with
  | [] => Some (st, rand)
  | segment0 :: _ =>
      let head := advance segment0 (direction st) in
      if hits_wall head then Some (collide st, rand)
      else if existsb (same_cell head) (snake st) then Some (collide st, rand)
      else if (x head =? x (food st)) && (y head =? y (food st)) then
        match generateFood (snake st) rand with
        | Some (newFood, rand') =>
            Some (setFood newFood
                    (setScore (score st + 1)
                       (setSnake (head :: snake st) st)), rand')
        | None => None
        end
      else Some (setSnake (removelast (head :: snake st)) st, rand)
  end.

(** [moveSnake] (lines 61-102). *)
Definition moveSnake (st : State) (rand : list Cell)
  : option (State * list Cell) :=
  if negb (GameState_eqb (gameState st) playing) then Some (st, rand) else
  match updateSnake st rand with
  | Some (st', rand') => Some (setArrowKeyProcessingRef None st', rand')
  | None => None
  end.

(** [changeDirection] (lines 104-119). *)
Definition changeDirection (key : string) (st : State) : State :=
  if (key =? "ArrowUp")%string then
    if negb (y (direction st) =? 1) then setDirection (mkCell 0 (-1)) st else st
  else if (key =? "ArrowDown")%string then
    if negb (y (direction st) =? -1) then setDirection (mkCell 0 1) st else st
  else if (key =? "ArrowLeft")%string then
    if negb (x (direction st) =? 1) then setDirection (mkCell (-1) 0) st else st
  else if (key =? "ArrowRight")%string then
    if negb (x (direction st) =? -1) then setDirection (mkCell 1 0) st else st
  else st.

(** Truthiness of [arrowKeyProcessingRef.current]: [null] and the empty
    string are falsy. *)
Definition truthy (r : option string) : bool :=
  match r with
  | None => false
  | Some EmptyString => false
  | Some (String _ _) => true
  end.

(** [handleKeyDown] (lines 121-136), applied to [e.key]. *)
Definition handleKeyDown (key : string) (st : State) : State :=
  if (key =? " ")%string || (key =? "Spacebar")%string then togglePause st
  else if negb (GameState_eqb (gameState st) playing) then st
  else if negb (key =? "ArrowUp")%string && negb (key =? "ArrowDown")%string
          && negb (key =? "ArrowLeft")%string && negb (key =? "ArrowRight")%string
  then st
  else if truthy (arrowKeyProcessingRef st) then st
  else changeDirection key (setArrowKeyProcessingRef (Some key) st).

(** The gestures [SwipeHandler] reports through its callback props. *)
Inductive Gesture : Type :=
  SwipeUp | SwipeDown | SwipeLeft | SwipeRight | DoubleTap.

(** Modelled from the spec: [SwipeHandler.jsx] is not among the sources.
    Following section 6 (gestures map 1:1 onto the inbound calls), a
    recognised gesture invokes the matching prop once; the props
    themselves are the arrow functions of lines 242-246. *)
Definition onGesture (g : Gesture) (st : State) : State :=
  match g with
  | SwipeUp => changeDirection "ArrowUp" st
  | SwipeDown => changeDirection "ArrowDown" st
  | SwipeLeft => changeDirection "ArrowLeft" st
  | SwipeRight => changeDirection "ArrowRight" st
  | DoubleTap => togglePause st
  end.

(** Everything that can happen to the component: the interval timer
    firing, a key going down, a gesture on the board, and the buttons. *)
Inductive Event : Type :=
| Tick
| KeyDown (key : string)
| Swipe (g : Gesture)
| ClickStart
| ClickPause
| ClickReset
| ClickSpeed (k : SpeedKey).

(** One event.  START GAME / PLAY AGAIN are rendered only in the
    [waiting] and [gameOver] overlays (lines 276-305) and the PAUSE
    button is disabled there (line 323). *)
Definition step (e : Event) (st : State) (rand : list Cell)
  : option (State * list Cell) :=
  match e with
  | Tick => moveSnake st rand
  | KeyDown key => Some (handleKeyDown key st, rand)
  | Swipe g => Some (onGesture g st, rand)
  | ClickStart =>
      match gameState st with
      | waiting | gameOver => Some (startGame st, rand)
      | _ => Some (st, rand)
      end
  | ClickPause =>
      match gameState st with
      | waiting | gameOver => Some (st, rand)
      | _ => Some (togglePause st, rand)
      end
  | ClickReset => Some (resetGame st, rand)
  | ClickSpeed k => Some (setGameSpeed k st, rand)
  end.

Fixpoint run (evs : list Event) (st : State) (rand : list Cell)
  : option (State * list Cell) :=
  match evs with
  | [] => Some (st, rand)
  | e :: evs' =>
      match step e st rand with
      | Some (st', rand') => run evs' st' rand'
      | None => None
      end
  end.

(** States the component can be in after some events, for some outcome
    of the random draws. *)
Definition reachable (st : State) : Prop :=
  exists evs rand rand', run evs initial rand = Some (st, rand').

(** The direction an arrow key asks for (lines 106-117). *)
Definition keyDirection (key : string) : option Cell :=
  if (key =? "ArrowUp")%string then Some (mkCell 0 (-1))
  else if (key =? "ArrowDown")%string then Some (mkCell 0 1)
  else if (key =? "ArrowLeft")%string then Some (mkCell (-1) 0)
  else if (key =? "ArrowRight")%string then Some (mkCell 1 0)
  else None.

(** The four unit vectors a direction can be. *)
Definition isDirection (d : Cell) : Prop :=
  d = mkCell 0 (-1) \/ d = mkCell 0 1 \/ d = mkCell (-1) 0 \/ d = mkCell 1 0.

Definition opposite (d : Cell) : Cell := mkCell (- x d) (- y d).

(** Key events delivered one after the other. *)
Definition keys (ks : list string) (st : State) : State :=
  fold_left (fun s k => handleKeyDown k s) ks st.

Definition isArrow (key : string) : Prop :=
  key = "ArrowUp"%string \/ key = "ArrowDown"%string
  \/ key = "ArrowLeft"%string \/ key = "ArrowRight"%string.

End SnakeGame.

Import SnakeGame.

(** ** Concrete states used by the examples *)

(** Scenario B of the specification: a lone segment on the left wall,
    heading left. *)
Definition scenarioB : State :=
  mkState [mkCell 0 10] INITIAL_FOOD (mkCell (-1) 0) 3 2 normal playing None.

(** Scenario C: two segments heading up, food right above the head. *)
Definition scenarioC : State :=
  mkState [mkCell 5 5; mkCell 5 6] (mkCell 5 4) (mkCell 0 (-1))
          0 0 normal playing None.

(** The same fields held by the component of [App.jsx]. *)
Definition scenarioC_App : App.State :=
  App.mkState [mkCell 5 5; mkCell 5 6] (mkCell 5 4) (mkCell 0 (-1))
              false 0 true 0 normal.

(** A snake of four segments curled so that the cell in front of the head
    is the one its tail is about to leave. *)
Definition curled : State :=
  mkState [mkCell 5 5; mkCell 5 6; mkCell 6 6; mkCell 6 5] INITIAL_FOOD
          (mkCell 1 0) 3 0 normal playing None.

(** A run that steers the initial snake onto the initial food: five cells
    to the right, then five cells down. *)
Definition eat_first_food : list Event :=
  [ClickStart; KeyDown "ArrowRight"; Tick; Tick; Tick; Tick; Tick;
   KeyDown "ArrowDown"; Tick; Tick; Tick; Tick; Tick].

(** A key is pressed during a run, then RESET and START GAME are clicked. *)
Definition restart_after_key : list Event :=
  [ClickStart; KeyDown "ArrowLeft"; ClickReset; ClickStart].

(** What the two components are compared on: the fields they share, and
    whether the phase lets a tick move the snake. *)
Definition same_inputs (a : App.State) (s : State) : Prop :=
  App.snake a = snake s /\ App.food a = food s
  /\ App.direction a = direction s /\ App.score a = score s
  /\ App.highScore a = highScore s
  /\ App.playing a = GameState_eqb (gameState s) playing.

(** ** Notions used to state the invariants of the game *)

(** Two cells that differ by one of the four unit vectors. *)
Definition adjacent (a b : Cell) : Prop :=
  isDirection (mkCell (x a - x b) (y a - y b)).

(** Every segment touches the one behind it. *)
Fixpoint connected (l : list Cell) : Prop :=
  match l with
  | a :: (b :: _) as rest => adjacent a b /\ connected rest
  | _ => True
  end.

(** The cells of the board, row by row. *)
Definition all_cells : list Cell :=
  flat_map (fun row => map (fun col => mkCell col row) indices) indices.

(** Events other than the four swipes. *)
Definition no_swipe (e : Event) : bool :=
  match e with
  | Swipe DoubleTap => true
  | Swipe _ => false
  | _ => true
  end.

(** The head is not about to step back onto the segment behind it. *)
Definition not_reversing (st : State) : Prop :=
  match snake st with
  | head :: neck :: _ => advance head (direction st) <> neck
  | _ => True
  end.

(** The direction is the one the head last travelled in. *)
Definition heading_forward (st : State) : Prop :=
  match snake st with
  | head :: neck :: _ => advance neck (direction st) = head
  | _ => True
  end.

(** The key that asks for a given unit direction. *)
Definition keyFor (d : Cell) : string :=
  if (y d =? -1) then "ArrowUp"
  else if (y d =? 1) then "ArrowDown"
  else if (x d =? -1) then "ArrowLeft"
  else "ArrowRight".

(** A quarter turn of a direction. *)
Definition quarterTurn (d : Cell) : Cell := mkCell (y d) (x d).

(** The transitions between the values of [gameState]. *)
Definition phase_move (e : Event) (from to : GameState) : bool :=
  match from, to with
  | playing, paused | paused, playing =>
      match e with
      | ClickPause | Swipe DoubleTap => true
      | KeyDown key => (key =? " ")%string || (key =? "Spacebar")%string
      | _ => false
      end
  | playing, gameOver =>
      match e with Tick => true | _ => false end
  | waiting, playing | gameOver, playing =>
      match e with ClickStart => true | _ => false end
  | playing, waiting | paused, waiting | gameOver, waiting =>
      match e with ClickReset => true | _ => false end
  | _, _ => false
  end.

(** What every state of [SnakeGame.jsx] that can be reached satisfies. *)
Definition Inv (st : State) : Prop :=
  snake st <> []
  /\ Forall in_grid (snake st)
  /\ NoDup (snake st)
  /\ connected (snake st)
  /\ isDirection (direction st)
  /\ score st = Z.of_nat (List.length (snake st)) - 1
  /\ 0 <= highScore st <= 399
  /\ (gameState st = gameOver -> score st <= highScore st).

(** Events that leave a paused game as it is: the timer and the keys other
    than the two that toggle the pause. *)
Definition idle_when_paused (e : Event) : bool :=
  match e with
  | Tick => true
  | KeyDown key => negb ((key =? " ")%string || (key =? "Spacebar")%string)
  | _ => false
  end.

(** The state [eat_first_food] ends in when the draw is (15,15). *)
Definition after_first_food : State :=
  mkState [mkCell 15 15; mkCell 15 14] (mkCell 15 15) (mkCell 0 1)
          1 0 normal playing None.

(** A game lost with two segments: the head ran into the right wall. *)
Definition lost_game : list Event :=
  eat_first_food ++ [KeyDown "ArrowRight"; Tick; Tick; Tick; Tick; Tick].

(** The state [lost_game] ends in when the draw is (15,15). *)
Definition after_lost_game : State :=
  mkState [mkCell 19 15; mkCell 18 15] (mkCell 15 15) (mkCell 1 0)
          1 1 normal gameOver None.

(** The outcomes of a tick, as [moveSnake] distinguishes them. *)
Inductive TickOutcome (st : State) (rand : list Cell) : State -> list Cell -> Prop :=
| tick_idle :
    gameState st <> playing ->
    TickOutcome st rand st rand
| tick_no_snake :
    gameState st = playing -> snake st = [] ->
    TickOutcome st rand (setArrowKeyProcessingRef None st) rand
| tick_collision segment0 body :
    gameState st = playing -> snake st = segment0 :: body ->
    hits_wall (advance segment0 (direction st)) = true
    \/ In (advance segment0 (direction st)) (snake st) ->
    TickOutcome st rand (setArrowKeyProcessingRef None (collide st)) rand
| tick_eat segment0 body newFood rand' :
    gameState st = playing -> snake st = segment0 :: body ->
    in_grid (advance segment0 (direction st)) ->
    ~ In (advance segment0 (direction st)) (snake st) ->
    advance segment0 (direction st) = food st ->
    generateFood (snake st) rand = Some (newFood, rand') ->
    TickOutcome st rand
      (setArrowKeyProcessingRef None
         (setFood newFood
            (setScore (score st + 1)
               (setSnake (advance segment0 (direction st) :: snake st) st))))
      rand'
| tick_slide segment0 body :
    gameState st = playing -> snake st = segment0 :: body ->
    in_grid (advance segment0 (direction st)) ->
    ~ In (advance segment0 (direction st)) (snake st) ->
    advance segment0 (direction st) <> food st ->
    TickOutcome st rand
      (setArrowKeyProcessingRef None
         (setSnake (removelast (advance segment0 (direction st) :: snake st)) st))
      rand.

(** What holds of the direction as long as only the keyboard steers. *)
Definition KInv (st : State) : Prop :=
  isDirection (direction st)
  /\ not_reversing st
  /\ (gameState st = playing \/ gameState st = paused ->
      truthy (arrowKeyProcessingRef st) = false -> heading_forward st).

(** What every state of [App.jsx] that can be reached satisfies. *)
Definition AppInv (a : App.State) : Prop :=
  App.snake a <> []
  /\ App.score a = 10 * (Z.of_nat (List.length (App.snake a)) - 1)
  /\ (App.gameOver a = true -> App.isPlaying a = false)
  /\ isDirection (App.direction a).

(** The state of [App.jsx] with the fields of [after_first_food]. *)
Definition App_after_first_food : App.State :=
  App.mkState [mkCell 15 15; mkCell 15 14] (mkCell 15 15) (mkCell 0 1)
              false 10 true 0 normal.

(** The events that lead [App.jsx] there when the draw is (15,15). *)
Definition App_eat_first_food : list App.Event :=
  [App.ClickStart; App.KeyDown "ArrowRight";
   App.Tick; App.Tick; App.Tick; App.Tick; App.Tick;
   App.KeyDown "ArrowDown";
   App.Tick; App.Tick; App.Tick; App.Tick; App.Tick].

(** The score text has four characters and reads back as the number. *)
Definition scoreText_ok (n : Z) : bool :=
  (String.length (scoreText n) =? 4)%nat
  && match NilZero.int_of_string (scoreText n) with
     | Some d => Z.of_int d =? n
     | None => false
     end.

(** Case analysis on a proof of [isArrow key]. *)
Ltac arrow_cases H :=
  destruct H as [-> | [-> | [-> | ->]]].

(** ** Facts about the shared helpers *)

Lemma same_cell_eq (c segment : Cell) :
  same_cell c segment = true <-> segment = c.
Proof.
  unfold same_cell. rewrite andb_true_iff, !Z.eqb_eq.
  destruct c, segment; simpl. split.
  - intros [-> ->]. reflexivity.
  - intros H. injection H as -> ->. split; reflexivity.
Qed.

Lemma some_same_cell_In (c : Cell) (l : list Cell) :
  existsb (same_cell c) l = true <-> In c l.
Proof.
  rewrite existsb_exists. split.
  - intros [s [Hin Hs]]. apply same_cell_eq in Hs. subst. exact Hin.
  - intros Hin. exists c. split; [exact Hin | apply same_cell_eq; reflexivity].
Qed.

Lemma some_same_cell_notin (c : Cell) (l : list Cell) :
  existsb (same_cell c) l = false <-> ~ In c l.
Proof.
  rewrite <- some_same_cell_In. destruct (existsb (same_cell c) l).
  - split; [discriminate | intros H; exfalso; apply H; reflexivity].
  - split; [intros _ H; discriminate | reflexivity].
Qed.

Lemma hits_wall_true (head : Cell) :
  hits_wall head = true <->
  x head < 0 \/ GRID_SIZE <= x head \/ y head < 0 \/ GRID_SIZE <= y head.
Proof.
  unfold hits_wall. rewrite !orb_true_iff, !Z.ltb_lt, !Z.geb_le. tauto.
Qed.

Lemma hits_wall_false (head : Cell) :
  hits_wall head = false <-> in_grid head.
Proof.
  unfold in_grid. destruct (hits_wall head) eqn:E.
  - apply hits_wall_true in E. split; [discriminate | lia].
  - split; [intros _ | reflexivity].
    assert (H : ~ (x head < 0 \/ GRID_SIZE <= x head \/ y head < 0 \/ GRID_SIZE <= y head)).
    { intros H. apply hits_wall_true in H. congruence. }
    lia.
Qed.

(** The sampling loop returns a cell that is off the snake it scanned,
    after skipping only draws that were on it. *)
Lemma generateFood_sound (snake rand : list Cell) (newFood : Cell) (rest : list Cell) :
  generateFood snake rand = Some (newFood, rest) ->
  ~ In newFood snake /\
  exists skipped, rand = skipped ++ newFood :: rest /\ Forall (fun c => In c snake) skipped.
Proof.
  induction rand as [|c rand IH]; simpl; [discriminate|].
  destruct (existsb (same_cell c) snake) eqn:E.
  - intros H. destruct (IH H) as [Hn [sk [-> Hsk]]]. split; [exact Hn|].
    exists (c :: sk). split; [reflexivity|].
    constructor; [apply some_same_cell_In; exact E | exact Hsk].
  - intros H. injection H as <- <-. split.
    + apply some_same_cell_notin. exact E.
    + exists []. split; [reflexivity | constructor].
Qed.

(** The loop ends as soon as a draw falls off the snake. *)
Lemma generateFood_returns (snake rand : list Cell) :
  Exists (fun c => ~ In c snake) rand ->
  exists newFood rest, generateFood snake rand = Some (newFood, rest).
Proof.
  induction 1 as [c rand Hc | c rand _ IH]; simpl.
  - apply some_same_cell_notin in Hc. rewrite Hc. eauto.
  - destruct (existsb (same_cell c) snake); eauto.
Qed.

(** ** The tick of [SnakeGame.jsx] *)

(** The updater on a snake that has a first segment. *)
Lemma updateSnake_cons (st : State) (rand : list Cell) (segment0 : Cell) (body : list Cell) :
  snake st = segment0 :: body ->
  updateSnake st rand =
  let head := advance segment0 (direction st) in
  if hits_wall head then Some (collide st, rand)
  else if existsb (same_cell head) (snake st) then Some (collide st, rand)
  else if (x head =? x (food st)) && (y head =? y (food st)) then
    match generateFood (snake st) rand with
    | Some (newFood, rand') =>
        Some (setFood newFood
                (setScore (score st + 1) (setSnake (head :: snake st) st)), rand')
    | None => None
    end
  else Some (setSnake (removelast (head :: snake st)) st, rand).
Proof.
  intros H. unfold updateSnake. destruct (snake st) as [|s0 b]; [discriminate|].
  injection H as -> ->. reflexivity.
Qed.

Lemma moveSnake_playing (st : State) (rand : list Cell) :
  gameState st = playing ->
  moveSnake st rand =
  match updateSnake st rand with
  | Some (st', rand') => Some (setArrowKeyProcessingRef None st', rand')
  | None => None
  end.
Proof. intros H. unfold moveSnake. rewrite H. reflexivity. Qed.

Lemma moveSnake_not_playing (st : State) (rand : list Cell) :
  gameState st <> playing -> moveSnake st rand = Some (st, rand).
Proof.
  intros H. unfold moveSnake. destruct (gameState st); try reflexivity. congruence.
Qed.

Section Tick.

Variables (st : State) (rand : list Cell) (segment0 : Cell) (body : list Cell).
Hypothesis Hplaying : gameState st = playing.
Hypothesis Hsnake : snake st = segment0 :: body.

Local Abbreviation newHead := (advance segment0 (direction st)).

(** Either collision test sends the tick through the same block. *)
Lemma moveSnake_collision :
  hits_wall newHead = true \/ existsb (same_cell newHead) (snake st) = true ->
  moveSnake st rand = Some (setArrowKeyProcessingRef None (collide st), rand).
Proof.
  intros H. rewrite (moveSnake_playing _ _ Hplaying).
  rewrite (updateSnake_cons _ _ _ _ Hsnake). cbv zeta.
  destruct (hits_wall newHead); [reflexivity|].
  destruct H as [H | H]; [discriminate | rewrite H; reflexivity].
Qed.

(** A collision-free head that is on the food grows the snake. *)
Lemma moveSnake_eat (newFood : Cell) (rand' : list Cell) :
  in_grid newHead -> ~ In newHead (snake st) -> newHead = food st ->
  generateFood (snake st) rand = Some (newFood, rand') ->
  moveSnake st rand =
  Some (setArrowKeyProcessingRef None
          (setFood newFood (setScore (score st + 1)
                              (setSnake (newHead :: snake st) st))), rand').
Proof.
  intros Hg Hn Hf Hgen. rewrite (moveSnake_playing _ _ Hplaying).
  rewrite (updateSnake_cons _ _ _ _ Hsnake). cbv zeta.
  apply hits_wall_false in Hg. rewrite Hg.
  apply some_same_cell_notin in Hn. rewrite Hn.
  rewrite <- Hf, !Z.eqb_refl. simpl. rewrite Hgen. reflexivity.
Qed.

(** A collision-free head that is off the food slides the snake. *)
Lemma moveSnake_slide :
  in_grid newHead -> ~ In newHead (snake st) -> newHead <> food st ->
  moveSnake st rand =
  Some (setArrowKeyProcessingRef None
          (setSnake (removelast (newHead :: snake st)) st), rand).
Proof.
  intros Hg Hn Hf. rewrite (moveSnake_playing _ _ Hplaying).
  rewrite (updateSnake_cons _ _ _ _ Hsnake). cbv zeta.
  apply hits_wall_false in Hg. rewrite Hg.
  apply some_same_cell_notin in Hn. rewrite Hn.
  destruct ((x newHead =? x (food st)) && (y newHead =? y (food st))) eqn:E.
  - exfalso. apply Hf. apply andb_true_iff in E. destruct E as [E1 E2].
    apply Z.eqb_eq in E1, E2. unfold advance in *.
    destruct (food st); simpl in *. congruence.
  - reflexivity.
Qed.

End Tick.

Lemma collide_fields (st : State) :
  gameState (collide st) = gameOver /\ snake (collide st) = snake st
  /\ food (collide st) = food st /\ score (collide st) = score st
  /\ direction (collide st) = direction st
  /\ highScore (collide st) = (if score st >? highScore st then score st else highScore st).
Proof.
  unfold collide. destruct (score st >? highScore st); simpl; repeat split.
Qed.

Lemma length_removelast_cons (A : Type) (a : A) (l : list A) :
  List.length (removelast (a :: l)) = List.length l.
Proof.
  revert a. induction l as [|b l IH]; intros a; [reflexivity|].
  change (removelast (a :: b :: l)) with (a :: removelast (b :: l)).
  change (S (List.length (removelast (b :: l))) = S (List.length l)).
  rewrite IH. reflexivity.
Qed.

Lemma removelast_cons_cons (A : Type) (a b : A) (l : list A) :
  removelast (a :: b :: l) = a :: removelast (b :: l).
Proof. reflexivity. Qed.

Lemma In_removelast (A : Type) (c : A) (l : list A) :
  In c (removelast l) -> In c l.
Proof.
  induction l as [|a l IH]; [intros []|].
  destruct l as [|b l]; [intros []|].
  rewrite removelast_cons_cons. intros [H | H]; [left; exact H | right; apply IH; exact H].
Qed.

Lemma last_In (A : Type) (l : list A) (d : A) :
  l <> [] -> In (last l d) l.
Proof.
  induction l as [|a l IH]; [congruence|]. intros _.
  destruct l as [|b l]; [left; reflexivity|].
  right. apply IH. discriminate.
Qed.

(** C2. While playing, a new head outside the grid or on a cell of the
    snake as it was before the move ends the game: the phase becomes
    [gameOver], snake, food and score stay as they were, and the high
    score becomes the score exactly when the score exceeded it. *)
Theorem C2_collision_ends_game (st : State) (rand : list Cell)
    (segment0 : Cell) (body : list Cell) :
  gameState st = playing ->
  snake st = segment0 :: body ->
  let newHead := advance segment0 (direction st) in
  (x newHead < 0 \/ GRID_SIZE <= x newHead \/ y newHead < 0 \/ GRID_SIZE <= y newHead
   \/ In newHead (snake st)) ->
  exists st',
    moveSnake st rand = Some (st', rand)
    /\ gameState st' = gameOver
    /\ snake st' = snake st /\ food st' = food st /\ score st' = score st
    /\ (score st > highScore st -> highScore st' = score st)
    /\ (~ score st > highScore st -> highScore st' = highScore st).
Proof.
  intros Hp Hs newHead Hc.
  exists (setArrowKeyProcessingRef None (collide st)). split.
  - apply (moveSnake_collision st rand segment0 body Hp Hs).
    cbv zeta. fold newHead. rewrite hits_wall_true, some_same_cell_In. tauto.
  - destruct (collide_fields st) as (Hg & Hsn & Hf & Hsc & _ & Hh).
    simpl. repeat split; try assumption.
    + intros Hgt. rewrite Hh. apply Z.gtb_gt in Hgt. rewrite Hgt. reflexivity.
    + intros Hle. rewrite Hh. destruct (score st >? highScore st) eqn:E; [|reflexivity].
      apply Z.gtb_gt in E. contradiction.
Qed.

Lemma C2_witness :
  exists st',
    moveSnake scenarioB [] = Some (st', [])
    /\ gameState st' = gameOver
    /\ snake st' = [mkCell 0 10] /\ food st' = INITIAL_FOOD /\ score st' = 3
    /\ (3 > 2 -> highScore st' = 3)
    /\ (~ 3 > 2 -> highScore st' = 2).
Proof.
  apply (C2_collision_ends_game scenarioB [] (mkCell 0 10) []).
  - reflexivity.
  - reflexivity.
  - left. reflexivity.
Defined.

(** C6. While playing with at least two segments, a new head on the
    current tail cell ends the game instead of moving: the test scans the
    whole snake before anything is popped, so the tail counts as
    occupied even though a slide would vacate it. *)
Theorem C6_tail_counts_as_occupied (st : State) (rand : list Cell)
    (segment0 : Cell) (body : list Cell) :
  gameState st = playing ->
  snake st = segment0 :: body ->
  (2 <= List.length (snake st))%nat ->
  advance segment0 (direction st) = last (snake st) segment0 ->
  exists st',
    moveSnake st rand = Some (st', rand)
    /\ gameState st' = gameOver /\ snake st' = snake st
    /\ food st' = food st /\ score st' = score st.
Proof.
  intros Hp Hs _ Ht.
  exists (setArrowKeyProcessingRef None (collide st)). split.
  - apply (moveSnake_collision st rand segment0 body Hp Hs).
    right. apply some_same_cell_In. rewrite Ht. apply last_In.
    rewrite Hs. discriminate.
  - destruct (collide_fields st) as (Hg & Hsn & Hf & Hsc & _).
    simpl. repeat split; assumption.
Qed.

Lemma C6_witness :
  exists st',
    moveSnake curled [] = Some (st', [])
    /\ gameState st' = gameOver
    /\ snake st' = [mkCell 5 5; mkCell 5 6; mkCell 6 6; mkCell 6 5]
    /\ food st' = INITIAL_FOOD /\ score st' = 3.
Proof.
  apply (C6_tail_counts_as_occupied curled [] (mkCell 5 5)
           [mkCell 5 6; mkCell 6 6; mkCell 6 5]).
  - reflexivity.
  - reflexivity.
  - simpl. lia.
  - reflexivity.
Defined.

(** C7. While playing with a collision-free new head: on the food, the
    tick adds the reward of one point, keeps the tail (the snake is the
    new head in front of the old snake, one segment longer) and places a
    new food: the first of the draws that is off the snake as it was
    before the move, every draw before it being on that snake and the
    draws after it being left unused; off the food, the tail is dropped
    and length, score, food and draws are kept. *)
Theorem C7_growth_and_slide (st : State) (rand : list Cell)
    (segment0 : Cell) (body : list Cell) :
  gameState st = playing ->
  snake st = segment0 :: body ->
  let newHead := advance segment0 (direction st) in
  in_grid newHead ->
  ~ In newHead (snake st) ->
  (newHead = food st ->
   Exists (fun c => ~ In c (snake st)) rand ->
   exists st' newFood rand' skipped,
     moveSnake st rand = Some (st', rand')
     /\ generateFood (snake st) rand = Some (newFood, rand')
     /\ rand = skipped ++ newFood :: rand'
     /\ Forall (fun c => In c (snake st)) skipped
     /\ ~ In newFood (snake st)
     /\ score st' = score st + 1
     /\ snake st' = newHead :: snake st
     /\ List.length (snake st') = S (List.length (snake st))
     /\ food st' = newFood)
  /\
  (newHead <> food st ->
   exists st',
     moveSnake st rand = Some (st', rand)
     /\ snake st' = newHead :: removelast (snake st)
     /\ List.length (snake st') = List.length (snake st)
     /\ score st' = score st
     /\ food st' = food st).
Proof.
  intros Hp Hs newHead Hg Hn. split.
  - intros Hf Hex.
    destruct (generateFood_returns _ _ Hex) as (newFood & rand' & Hgen).
    destruct (generateFood_sound _ _ _ _ Hgen) as (Hoff & skipped & Hrand & Hskipped).
    eexists _, newFood, rand', skipped. split.
    + apply (moveSnake_eat st rand segment0 body Hp Hs newFood rand' Hg Hn Hf Hgen).
    + split; [exact Hgen|]. split; [exact Hrand|]. split; [exact Hskipped|].
      split; [exact Hoff|]. simpl. repeat split.
  - intros Hf. eexists. split.
    + apply (moveSnake_slide st rand segment0 body Hp Hs Hg Hn Hf).
    + cbn [snake score food setArrowKeyProcessingRef setSnake].
      rewrite length_removelast_cons, Hs, removelast_cons_cons.
      repeat split; reflexivity.
Qed.

Lemma C7_witness :
  exists st',
    moveSnake scenarioC [mkCell 5 6; mkCell 3 7; mkCell 8 8]
    = Some (st', [mkCell 8 8])
    /\ score st' = 0 + 1
    /\ snake st' = [mkCell 5 4; mkCell 5 5; mkCell 5 6]
    /\ List.length (snake st') = 3%nat
    /\ food st' = mkCell 3 7
    /\ ~ In (food st') (snake scenarioC).
Proof.
  assert (Hgrid : in_grid (advance (mkCell 5 5) (direction scenarioC)))
    by (unfold in_grid, GRID_SIZE; simpl; lia).
  assert (Hfree : ~ In (advance (mkCell 5 5) (direction scenarioC)) (snake scenarioC))
    by (simpl; intros [H | [H | []]]; discriminate H).
  assert (Hdraw : Exists (fun c => ~ In c (snake scenarioC))
                    [mkCell 5 6; mkCell 3 7; mkCell 8 8]).
  { apply Exists_cons_tl, Exists_cons_hd.
    simpl. intros [H | [H | []]]; discriminate H. }
  destruct (proj1 (C7_growth_and_slide scenarioC
                     [mkCell 5 6; mkCell 3 7; mkCell 8 8]
                     (mkCell 5 5) [mkCell 5 6] eq_refl eq_refl Hgrid Hfree)
              eq_refl Hdraw)
    as (st' & newFood & rand' & skipped & Hm & Hgen & _ & _ & Hoff & Hsc & Hsn & Hlen & Hf).
  vm_compute in Hgen. injection Hgen as <- <-.
  exists st'. split; [exact Hm|]. split; [exact Hsc|]. split; [exact Hsn|].
  split; [exact Hlen|]. split; [exact Hf|]. rewrite Hf. exact Hoff.
Defined.

(** C8. From every state, hence from every reachable one, [resetGame]
    gives the phase [waiting] with snake [(10,10)], food (15,15),
    direction (0,-1) and score 0, and keeps the high score it found. *)
Theorem C8_reset_restores_initial (st : State) :
  gameState (resetGame st) = waiting
  /\ snake (resetGame st) = [mkCell 10 10]
  /\ food (resetGame st) = mkCell 15 15
  /\ direction (resetGame st) = mkCell 0 (-1)
  /\ score (resetGame st) = 0
  /\ highScore (resetGame st) = highScore st.
Proof. repeat split. Qed.

(** ** Food placement after a tick *)

(** A playing tick keeps the food off every segment behind the head. *)
Lemma food_off_body_after_tick (st st' : State) (rand rand' : list Cell) :
  gameState st = playing ->
  ~ In (food st) (snake st) ->
  moveSnake st rand = Some (st', rand') ->
  ~ In (food st') (tl (snake st')).
Proof.
  intros Hp Hfood Hm. rewrite (moveSnake_playing _ _ Hp) in Hm.
  destruct (snake st) as [|segment0 body] eqn:Hs.
  - unfold updateSnake in Hm. rewrite Hs in Hm. injection Hm as <- <-.
    simpl. rewrite Hs. intros [].
  - rewrite (updateSnake_cons _ _ _ _ Hs) in Hm. cbv zeta in Hm.
    set (head := advance segment0 (direction st)) in *.
    assert (Hcol : ~ In (food (collide st)) (tl (snake (collide st)))).
    { destruct (collide_fields st) as (_ & -> & -> & _). rewrite Hs.
      intros H. apply Hfood. right. exact H. }
    destruct (hits_wall head); [injection Hm as <- <-; exact Hcol|].
    destruct (existsb (same_cell head) (snake st)); [injection Hm as <- <-; exact Hcol|].
    destruct ((x head =? x (food st)) && (y head =? y (food st))) eqn:Ef.
    + destruct (generateFood (snake st) rand) as [[newFood r]|] eqn:Eg; [|discriminate].
      injection Hm as <- <-. simpl.
      apply generateFood_sound in Eg. destruct Eg as [Hn _].
      exact Hn.
    + injection Hm as <- <-.
      cbn [snake food setArrowKeyProcessingRef setSnake].
      rewrite Hs. cbn [tl]. intros H.
      apply In_removelast in H. exact (Hfood H).
Qed.

(** A tick that does not eat keeps the food off the whole snake. *)
Lemma food_off_snake_after_slide (st st' : State) (rand rand' : list Cell) :
  gameState st = playing ->
  ~ In (food st) (snake st) ->
  moveSnake st rand = Some (st', rand') ->
  score st' = score st ->
  ~ In (food st') (snake st').
Proof.
  intros Hp Hfood Hm Hsc. rewrite (moveSnake_playing _ _ Hp) in Hm.
  destruct (snake st) as [|segment0 body] eqn:Hs.
  - unfold updateSnake in Hm. rewrite Hs in Hm. injection Hm as <- <-.
    simpl. rewrite Hs. intros [].
  - rewrite (updateSnake_cons _ _ _ _ Hs) in Hm. cbv zeta in Hm.
    set (head := advance segment0 (direction st)) in *.
    assert (Hcol : ~ In (food (collide st)) (snake (collide st))).
    { destruct (collide_fields st) as (_ & -> & -> & _). rewrite Hs. exact Hfood. }
    destruct (hits_wall head); [injection Hm as <- <-; exact Hcol|].
    destruct (existsb (same_cell head) (snake st)); [injection Hm as <- <-; exact Hcol|].
    destruct ((x head =? x (food st)) && (y head =? y (food st))) eqn:Ef.
    + destruct (generateFood (snake st) rand) as [[newFood r]|]; [|discriminate].
      injection Hm as <- <-. simpl in Hsc. lia.
    + injection Hm as <- <-.
      cbn [snake food setArrowKeyProcessingRef setSnake]. intros H.
      rewrite Hs in H. cbn iota in H. destruct H as [H | H].
      * apply andb_false_iff in Ef. rewrite <- H in Ef. rewrite !Z.eqb_refl in Ef.
        destruct Ef; discriminate.
      * apply In_removelast in H. exact (Hfood H).
Qed.

(** C1. The run [eat_first_food] from the initial state leaves, before
    its last tick, a playing state whose food (15,15) is off the snake
    [(15,14)] and right in front of the head.  With the draw (15,15) the
    last tick yields a reachable playing state in which the food and the
    head of the snake are the same cell: [generateFood] scans the snake as
    it was before the head was pushed. *)
Theorem C1_food_under_new_head :
  in_grid (mkCell 15 15)
  /\ exists st0 st,
       run (removelast eat_first_food) initial [mkCell 15 15]
       = Some (st0, [mkCell 15 15])
       /\ gameState st0 = playing
       /\ snake st0 = [mkCell 15 14]
       /\ direction st0 = mkCell 0 1
       /\ food st0 = mkCell 15 15
       /\ ~ In (food st0) (snake st0)
       /\ moveSnake st0 [mkCell 15 15] = Some (st, [])
       /\ run eat_first_food initial [mkCell 15 15] = Some (st, [])
       /\ reachable st
       /\ gameState st = playing
       /\ snake st = [mkCell 15 15; mkCell 15 14]
       /\ food st = mkCell 15 15
       /\ In (food st) (snake st).
Proof.
  split; [unfold in_grid, GRID_SIZE; simpl; lia|].
  do 2 eexists. split; [vm_compute; reflexivity|].
  do 4 (split; [reflexivity|]).
  split; [simpl; intros [H | []]; discriminate H|].
  split; [vm_compute; reflexivity|].
  split; [vm_compute; reflexivity|].
  split; [exists eat_first_food, [mkCell 15 15], []; vm_compute; reflexivity|].
  simpl. repeat split. left. reflexivity.
Qed.

(** ** Direction requests *)

Lemma changeDirection_frame (key : string) (st : State) :
  snake (changeDirection key st) = snake st
  /\ food (changeDirection key st) = food st
  /\ score (changeDirection key st) = score st
  /\ highScore (changeDirection key st) = highScore st
  /\ gameSpeed (changeDirection key st) = gameSpeed st
  /\ gameState (changeDirection key st) = gameState st
  /\ arrowKeyProcessingRef (changeDirection key st) = arrowKeyProcessingRef st.
Proof.
  unfold changeDirection.
  repeat match goal with
         | |- context [if ?b then _ else _] => destruct b
         end; repeat split.
Qed.

Lemma isArrow_truthy (key : string) : isArrow key -> truthy (Some key) = true.
Proof. intros H. arrow_cases H; reflexivity. Qed.

(** The keyboard path drops an arrow key outside of play. *)
Lemma handleKeyDown_arrow_not_playing (key : string) (st : State) :
  isArrow key -> gameState st <> playing -> handleKeyDown key st = st.
Proof.
  intros Hk Hp. unfold handleKeyDown.
  arrow_cases Hk; cbn [String.eqb Ascii.eqb Bool.eqb orb];
    destruct (gameState st); try reflexivity; congruence.
Qed.

(** The keyboard path drops an arrow key while another one is recorded. *)
Lemma handleKeyDown_arrow_busy (key : string) (st : State) :
  isArrow key -> truthy (arrowKeyProcessingRef st) = true ->
  handleKeyDown key st = st.
Proof.
  intros Hk Hr. unfold handleKeyDown. rewrite Hr.
  arrow_cases Hk; cbn [String.eqb Ascii.eqb Bool.eqb orb andb negb];
    destruct (negb (GameState_eqb (gameState st) playing)); reflexivity.
Qed.

(** The keyboard path records an arrow key and hands it on otherwise. *)
Lemma handleKeyDown_arrow_free (key : string) (st : State) :
  isArrow key -> gameState st = playing ->
  truthy (arrowKeyProcessingRef st) = false ->
  handleKeyDown key st =
  changeDirection key (setArrowKeyProcessingRef (Some key) st).
Proof.
  intros Hk Hp Hr. unfold handleKeyDown. rewrite Hr, Hp.
  arrow_cases Hk; reflexivity.
Qed.

(** Between two ticks the keyboard path honours the first arrow key only. *)
Lemma keys_busy (ks : list string) (st : State) :
  Forall isArrow ks -> truthy (arrowKeyProcessingRef st) = true ->
  keys ks st = st.
Proof.
  intros Hks Hr. induction Hks as [|k ks Hk _ IH]; [reflexivity|].
  unfold keys in *. simpl. rewrite (handleKeyDown_arrow_busy k st Hk Hr). exact IH.
Qed.

Lemma keys_first_only (k : string) (ks : list string) (st : State) :
  isArrow k -> Forall isArrow ks -> gameState st = playing ->
  truthy (arrowKeyProcessingRef st) = false ->
  keys (k :: ks) st = handleKeyDown k st.
Proof.
  intros Hk Hks Hp Hr. change (keys (k :: ks) st) with (keys ks (handleKeyDown k st)).
  apply keys_busy; [exact Hks|].
  rewrite (handleKeyDown_arrow_free k st Hk Hp Hr).
  destruct (changeDirection_frame k (setArrowKeyProcessingRef (Some k) st))
    as (_ & _ & _ & _ & _ & _ & ->).
  apply isArrow_truthy. exact Hk.
Qed.

(** A tick during play empties the record of the key being processed. *)
Lemma moveSnake_clears_ref (st st' : State) (rand rand' : list Cell) :
  gameState st = playing -> moveSnake st rand = Some (st', rand') ->
  arrowKeyProcessingRef st' = None.
Proof.
  intros Hp Hm. rewrite (moveSnake_playing _ _ Hp) in Hm.
  destruct (updateSnake st rand) as [[s r]|]; [|discriminate].
  injection Hm as <- <-. reflexivity.
Qed.

Lemma keyDirection_isArrow (key : string) (d : Cell) :
  keyDirection key = Some d -> isArrow key.
Proof.
  unfold keyDirection, isArrow.
  destruct (String.eqb_spec key "ArrowUp"); [tauto|].
  destruct (String.eqb_spec key "ArrowDown"); [tauto|].
  destruct (String.eqb_spec key "ArrowLeft"); [tauto|].
  destruct (String.eqb_spec key "ArrowRight"); [tauto|discriminate].
Qed.

(** What [changeDirection] does with an arrow key on a unit direction. *)
Lemma changeDirection_unit (key : string) (d : Cell) (st : State) :
  isDirection (direction st) -> keyDirection key = Some d ->
  changeDirection key st =
  if same_cell (opposite (direction st)) d then st else setDirection d st.
Proof.
  intros Hd Hk. pose proof (keyDirection_isArrow _ _ Hk) as Ha.
  unfold changeDirection.
  arrow_cases Ha; cbn in Hk; injection Hk as <-;
    cbn [String.eqb Ascii.eqb Bool.eqb];
    destruct Hd as [-> | [-> | [-> | ->]]]; reflexivity.
Qed.

(** C3. Two swipes with no tick between them both change the direction
    (here from up to left to down, a reversal), and a swipe changes it
    even while a key is recorded as being processed. *)
Theorem C3_swipes_bypass_buffer :
  exists st0 st1 st2 st3,
    run [ClickStart] initial [] = Some (st0, [])
    /\ run [ClickStart; Swipe SwipeLeft] initial [] = Some (st1, [])
    /\ run [ClickStart; Swipe SwipeLeft; Swipe SwipeDown] initial [] = Some (st2, [])
    /\ run [ClickStart; KeyDown "ArrowLeft"; Swipe SwipeDown] initial [] = Some (st3, [])
    /\ gameState st0 = playing
    /\ direction st0 = mkCell 0 (-1)
    /\ direction st1 = mkCell (-1) 0
    /\ direction st2 = mkCell 0 1
    /\ direction st3 = mkCell 0 1
    /\ arrowKeyProcessingRef st3 = Some "ArrowLeft"%string.
Proof.
  do 4 eexists.
  repeat (split; [vm_compute; reflexivity|]). reflexivity.
Qed.

(** C4. A swipe on the paused board, and one on the start screen, change
    the direction although the phase is not [playing]. *)
Theorem C4_swipe_outside_play :
  exists st,
    run [ClickStart; ClickPause] initial [] = Some (st, [])
    /\ gameState st = paused
    /\ direction st = mkCell 0 (-1)
    /\ direction (onGesture SwipeLeft st) = mkCell (-1) 0
    /\ gameState initial = waiting
    /\ direction initial = mkCell 0 (-1)
    /\ direction (onGesture SwipeLeft initial) = mkCell (-1) 0.
Proof.
  eexists. split; [vm_compute; reflexivity|]. repeat split.
Qed.

(** C5 as stated fails: right after START GAME the snake heads up, the
    ArrowDown key asks for the opposite direction, and the key handler
    records it in the ref although the direction stays; the ArrowLeft key
    that follows is then dropped. *)
Lemma C5_counterexample :
  exists st,
    run [ClickStart] initial [] = Some (st, [])
    /\ gameState st = playing
    /\ keyDirection "ArrowDown" = Some (opposite (direction st))
    /\ direction (handleKeyDown "ArrowDown" st) = direction st
    /\ arrowKeyProcessingRef st = None
    /\ arrowKeyProcessingRef (handleKeyDown "ArrowDown" st) = Some "ArrowDown"%string
    /\ arrowKeyProcessingRef (handleKeyDown "ArrowDown" st) <> arrowKeyProcessingRef st
    /\ handleKeyDown "ArrowLeft" (handleKeyDown "ArrowDown" st)
       = handleKeyDown "ArrowDown" st.
Proof.
  eexists. split; [vm_compute; reflexivity|].
  repeat split. discriminate.
Qed.

(** C5, amended. While playing, a request for the exact opposite of the
    current direction never changes the direction: through
    [changeDirection] (a swipe) nothing changes at all, through the key
    handler with nothing recorded the key is recorded all the same.  A
    request for the current or a perpendicular direction is accepted:
    always through [changeDirection], and through the key handler when
    nothing is recorded.  With a key recorded the handler drops both. *)
Theorem C5_opposite_request (st : State) (key : string) (d : Cell) :
  gameState st = playing ->
  isDirection (direction st) ->
  keyDirection key = Some d ->
  (d = opposite (direction st) ->
   changeDirection key st = st
   /\ direction (handleKeyDown key st) = direction st
   /\ (truthy (arrowKeyProcessingRef st) = false ->
       handleKeyDown key st = setArrowKeyProcessingRef (Some key) st))
  /\
  (d <> opposite (direction st) ->
   changeDirection key st = setDirection d st
   /\ (truthy (arrowKeyProcessingRef st) = false ->
       handleKeyDown key st
       = setDirection d (setArrowKeyProcessingRef (Some key) st)))
  /\
  (truthy (arrowKeyProcessingRef st) = true -> handleKeyDown key st = st).
Proof.
  intros Hp Hd Hk. pose proof (keyDirection_isArrow _ _ Hk) as Ha.
  pose proof (changeDirection_unit key d st Hd Hk) as Hc.
  pose proof (changeDirection_unit key d (setArrowKeyProcessingRef (Some key) st) Hd Hk) as Hc'.
  cbn [direction setArrowKeyProcessingRef] in Hc'.
  split; [|split].
  - intros ->.
    assert (E : same_cell (opposite (direction st)) (opposite (direction st)) = true)
      by (apply same_cell_eq; reflexivity).
    rewrite E in Hc, Hc'. split; [exact Hc|]. split.
    + destruct (truthy (arrowKeyProcessingRef st)) eqn:Hr.
      * rewrite (handleKeyDown_arrow_busy key st Ha Hr). reflexivity.
      * rewrite (handleKeyDown_arrow_free key st Ha Hp Hr), Hc'. reflexivity.
    + intros Hr. rewrite (handleKeyDown_arrow_free key st Ha Hp Hr). exact Hc'.
  - intros Hne.
    assert (E : same_cell (opposite (direction st)) d = false).
    { destruct (same_cell (opposite (direction st)) d) eqn:E; [|reflexivity].
      apply same_cell_eq in E. contradiction. }
    rewrite E in Hc, Hc'. split; [exact Hc|].
    intros Hr. rewrite (handleKeyDown_arrow_free key st Ha Hp Hr). exact Hc'.
  - intros Hr. apply (handleKeyDown_arrow_busy key st Ha Hr).
Qed.

Lemma C5_witness :
  changeDirection "ArrowLeft" curled = curled
  /\ direction (handleKeyDown "ArrowLeft" curled) = direction curled
  /\ handleKeyDown "ArrowLeft" curled
     = setArrowKeyProcessingRef (Some "ArrowLeft"%string) curled.
Proof.
  destruct (proj1 (C5_opposite_request curled "ArrowLeft" (mkCell (-1) 0)
                     eq_refl (or_intror (or_intror (or_intror eq_refl))) eq_refl)
              eq_refl) as (H1 & H2 & H3).
  exact (conj H1 (conj H2 (H3 eq_refl))).
Defined.

(** ** The tick of [App.jsx] against the tick of [SnakeGame.jsx] *)

(** C9 as stated fails: on scenario C, where the head reaches the food,
    the two ticks leave different scores. *)
Lemma C9_counterexample :
  same_inputs scenarioC_App scenarioC
  /\ exists a' s',
       App.moveSnake scenarioC_App [mkCell 3 7] = Some (a', [])
       /\ moveSnake scenarioC [mkCell 3 7] = Some (s', [])
       /\ App.score a' = 10 /\ score s' = 1
       /\ App.score a' <> score s'.
Proof.
  split; [repeat split|].
  do 2 eexists. split; [vm_compute; reflexivity|].
  split; [vm_compute; reflexivity|].
  repeat split. discriminate.
Qed.

(** C9, amended. From the same snake, food, direction, score and high
    score, in phases that agree on whether the game is being played, and
    with the same draws, the two ticks both return or both keep
    sampling; they leave the same draws, snake, food, direction and high
    score and agreeing phases.  The scores agree when the snake did not
    grow; when it grew, [App.jsx] added 10 and [SnakeGame.jsx] added 1. *)
Theorem C9_ticks_agree_up_to_reward (a : App.State) (s : State) (rand : list Cell) :
  same_inputs a s ->
  match App.moveSnake a rand, moveSnake s rand with
  | Some (a', ra), Some (s', rs) =>
      ra = rs
      /\ App.snake a' = snake s' /\ App.food a' = food s'
      /\ App.direction a' = direction s'
      /\ App.highScore a' = highScore s'
      /\ App.playing a' = GameState_eqb (gameState s') playing
      /\ (App.playing a = true ->
          App.gameOver a' = GameState_eqb (gameState s') gameOver)
      /\ ((List.length (snake s') = List.length (snake s)
           /\ score s' = score s /\ App.score a' = score s')
          \/ (List.length (snake s') = S (List.length (snake s))
              /\ score s' = score s + 1 /\ App.score a' = score s + 10))
  | None, None => True
  | _, _ => False
  end.
Proof.
  intros (Hs & Hf & Hd & Hsc & Hh & Hp).
  destruct a as [asn afo adi ago asc aip ahs agsp].
  destruct s as [sn fo di sc hs gsp gst ref].
  cbn in Hs, Hf, Hd, Hsc, Hh. subst asn afo adi asc ahs.
  unfold App.playing in Hp. cbn in Hp.
  destruct (GameState_eqb gst playing) eqn:Eg.
  - assert (gst = playing) as -> by (destruct gst; (reflexivity || discriminate)).
    apply andb_true_iff in Hp. destruct Hp as [-> Hgo].
    apply negb_true_iff in Hgo. subst ago.
    unfold App.moveSnake, moveSnake, updateSnake, App.collide, collide.
    cbn [App.isPlaying App.gameOver App.snake App.direction App.food App.score
         App.highScore snake direction food score highScore gameState
         negb orb GameState_eqb].
    destruct sn as [|segment0 body].
    + cbn. repeat split. left. repeat split.
    + set (head := advance segment0 di).
      set (sn := segment0 :: body).
      destruct (hits_wall head).
      { destruct (sc >? hs); cbn; repeat split; left; repeat split. }
      destruct (existsb (same_cell head) sn).
      { destruct (sc >? hs); cbn; repeat split; left; repeat split. }
      destruct ((x head =? x fo) && (y head =? y fo)).
      * destruct (generateFood sn rand) as [[newFood rand']|]; [|exact I].
        cbn. repeat split. right. repeat split.
      * cbn [App.setSnake App.snake App.food App.direction App.highScore
             App.playing App.isPlaying App.gameOver App.score
             setArrowKeyProcessingRef setSnake snake food direction highScore
             gameState score GameState_eqb negb andb].
        repeat split. left. split; [|split; reflexivity].
        apply length_removelast_cons.
  - assert (Hnp : negb aip || ago = true).
    { destruct aip, ago; cbn in Hp; (reflexivity || discriminate). }
    unfold App.moveSnake, moveSnake.
    cbn [App.isPlaying App.gameOver gameState]. rewrite Hnp, Eg.
    cbn [negb]. unfold App.playing. cbn.
    repeat split.
    + rewrite Hp. symmetry. exact Eg.
    + intros H. rewrite Hp in H. discriminate.
    + left. repeat split.
Qed.

Lemma C9_witness :
  match App.moveSnake scenarioC_App [mkCell 3 7], moveSnake scenarioC [mkCell 3 7] with
  | Some (a', ra), Some (s', rs) =>
      ra = rs
      /\ App.snake a' = snake s' /\ App.food a' = food s'
      /\ App.direction a' = direction s'
      /\ App.highScore a' = highScore s'
      /\ App.playing a' = GameState_eqb (gameState s') playing
      /\ (App.playing scenarioC_App = true ->
          App.gameOver a' = GameState_eqb (gameState s') gameOver)
      /\ ((List.length (snake s') = List.length (snake scenarioC)
           /\ score s' = score scenarioC /\ App.score a' = score s')
          \/ (List.length (snake s') = S (List.length (snake scenarioC))
              /\ score s' = score scenarioC + 1
              /\ App.score a' = score scenarioC + 10))
  | None, None => True
  | _, _ => False
  end.
Proof.
  apply (C9_ticks_agree_up_to_reward scenarioC_App scenarioC [mkCell 3 7]).
  repeat split.
Defined.

(** ** The record of the key being processed across a restart *)

(** C10. [resetGame] and [startGame] keep [arrowKeyProcessingRef]; no
    event empties a non-empty record except a tick during play, which
    always empties it.  In the run [restart_after_key] the key pressed in
    the first game is still recorded in the second: the first arrow key
    of the new game changes nothing, and the same key is accepted after
    the first tick. *)
Theorem C10_stale_key_survives_restart :
  (forall st, arrowKeyProcessingRef (resetGame st) = arrowKeyProcessingRef st)
  /\ (forall st, arrowKeyProcessingRef (startGame st) = arrowKeyProcessingRef st)
  /\ (forall e st rand st' rand',
        step e st rand = Some (st', rand') ->
        arrowKeyProcessingRef st <> None ->
        arrowKeyProcessingRef st' = None ->
        e = Tick /\ gameState st = playing)
  /\ (forall st rand st' rand',
        gameState st = playing ->
        moveSnake st rand = Some (st', rand') ->
        arrowKeyProcessingRef st' = None)
  /\ (exists st1 st2,
        run restart_after_key initial [] = Some (st1, [])
        /\ gameState st1 = playing
        /\ direction st1 = mkCell 0 (-1)
        /\ arrowKeyProcessingRef st1 = Some "ArrowLeft"%string
        /\ handleKeyDown "ArrowRight" st1 = st1
        /\ moveSnake st1 [] = Some (st2, [])
        /\ arrowKeyProcessingRef st2 = None
        /\ direction (handleKeyDown "ArrowRight" st2) = mkCell 1 0
        /\ arrowKeyProcessingRef (handleKeyDown "ArrowRight" st2)
           = Some "ArrowRight"%string).
Proof.
  split; [reflexivity|]. split; [reflexivity|]. split; [|split].
  - intros e st rand st' rand' Hstep Hsome Hnone.
    destruct e as [|key|g| | | |k]; cbn in Hstep.
    + destruct (gameState st) eqn:Eg;
        try (rewrite moveSnake_not_playing in Hstep by congruence;
             injection Hstep as <- <-; contradiction).
      split; reflexivity.
    + injection Hstep as <- <-. exfalso. revert Hnone. unfold handleKeyDown.
      repeat match goal with
             | |- context [if ?b then _ else _] => destruct b
             end;
        try exact Hsome.
      * unfold togglePause.
        destruct (GameState_eqb (gameState st) playing),
                 (GameState_eqb (gameState st) paused); exact Hsome.
      * destruct (changeDirection_frame key (setArrowKeyProcessingRef (Some key) st))
          as (_ & _ & _ & _ & _ & _ & ->).
        discriminate.
    + injection Hstep as <- <-. exfalso. revert Hnone.
      destruct g; cbn [onGesture];
        try (match goal with
             | |- context [changeDirection ?k st] =>
                 destruct (changeDirection_frame k st) as (_ & _ & _ & _ & _ & _ & ->)
             end; exact Hsome).
      unfold togglePause.
      destruct (GameState_eqb (gameState st) playing),
               (GameState_eqb (gameState st) paused); exact Hsome.
    + exfalso. destruct (gameState st); injection Hstep as <- <-; exact (Hsome Hnone).
    + exfalso. revert Hstep. unfold togglePause.
      destruct (gameState st); cbn; intros Hstep; injection Hstep as <- <-;
        exact (Hsome Hnone).
    + exfalso. injection Hstep as <- <-. exact (Hsome Hnone).
    + exfalso. injection Hstep as <- <-. exact (Hsome Hnone).
  - intros st rand st' rand'. apply moveSnake_clears_ref.
  - do 2 eexists. split; [vm_compute; reflexivity|].
    repeat split.
Qed.

Lemma C10_witness :
  Tick = Tick /\ gameState curled = playing.
Proof.
  refine (proj1 (proj2 (proj2 C10_stale_key_survives_restart))
            Tick
            (setArrowKeyProcessingRef (Some "ArrowLeft"%string) curled) []
            (setArrowKeyProcessingRef None
               (collide (setArrowKeyProcessingRef (Some "ArrowLeft"%string) curled)))
            [] _ _ _).
  - reflexivity.
  - discriminate.
  - reflexivity.
Defined.

(** ** Invariants of the component of [SnakeGame.jsx] *)

Lemma indices_spec (i : Z) : In i indices <-> 0 <= i < GRID_SIZE.
Proof.
  unfold indices, GRID_SIZE. rewrite in_map_iff. split.
  - intros [n [<- Hn]]. apply in_seq in Hn. simpl in Hn. lia.
  - intros H. exists (Z.to_nat i). split; [lia|]. apply in_seq. simpl. lia.
Qed.

Lemma all_cells_spec (c : Cell) : in_grid c -> In c all_cells.
Proof.
  intros [Hx Hy]. unfold all_cells. apply in_flat_map.
  exists (y c). split; [apply indices_spec; exact Hy|].
  apply in_map_iff. exists (x c). split; [destruct c; reflexivity|].
  apply indices_spec. exact Hx.
Qed.

(** A snake without overlap on the board has at most 400 segments. *)
Lemma snake_fits_board (l : list Cell) :
  NoDup l -> Forall in_grid l -> (List.length l <= 400)%nat.
Proof.
  intros Hn Hg.
  change 400%nat with (List.length all_cells).
  apply NoDup_incl_length; [exact Hn|].
  intros c Hc. apply all_cells_spec. rewrite Forall_forall in Hg. apply Hg, Hc.
Qed.

Lemma NoDup_removelast (A : Type) (l : list A) : NoDup l -> NoDup (removelast l).
Proof.
  induction l as [|a l IH]; [intros H; exact H|].
  destruct l as [|b l]; [intros _; constructor|].
  rewrite removelast_cons_cons. intros H. inversion H as [|? ? Hn Hl]; subst.
  constructor.
  - intros Hin. apply Hn. apply In_removelast. exact Hin.
  - apply IH. exact Hl.
Qed.

Lemma Forall_removelast (A : Type) (P : A -> Prop) (l : list A) :
  Forall P l -> Forall P (removelast l).
Proof.
  rewrite !Forall_forall. intros H c Hc. apply H, In_removelast, Hc.
Qed.

Lemma connected_removelast (l : list Cell) : connected l -> connected (removelast l).
Proof.
  induction l as [|a l IH]; [intros H; exact H|].
  destruct l as [|b l]; [intros _; exact I|].
  rewrite removelast_cons_cons.
  destruct l as [|c l]; [intros _; exact I|].
  rewrite removelast_cons_cons in *. intros [Hab Hrest].
  split; [exact Hab | apply IH; exact Hrest].
Qed.

Lemma connected_cons (a b : Cell) (l : list Cell) :
  adjacent a b -> connected (b :: l) -> connected (a :: b :: l).
Proof. intros H1 H2. split; assumption. Qed.

Lemma adjacent_advance (c d : Cell) : isDirection d -> adjacent (advance c d) c.
Proof.
  intros Hd. unfold adjacent, advance. simpl.
  replace (x c + x d - x c) with (x d) by lia.
  replace (y c + y d - y c) with (y d) by lia.
  destruct d. exact Hd.
Qed.

Lemma Inv_initial : Inv initial.
Proof.
  unfold Inv. cbn. repeat split; try lia; try discriminate.
  - repeat constructor; unfold GRID_SIZE; simpl; lia.
  - constructor; [intros [] | constructor].
  - left. reflexivity.
Qed.

(** What is left to show for an event that keeps the snake and the scores. *)
Lemma Inv_frame (st st' : State) :
  snake st' = snake st -> score st' = score st -> highScore st' = highScore st ->
  isDirection (direction st') ->
  (gameState st' = gameOver -> gameState st = gameOver) ->
  Inv st -> Inv st'.
Proof.
  intros Hs Hsc Hh Hd Hg (I1 & I2 & I3 & I4 & I5 & I6 & I7 & I8).
  unfold Inv. rewrite Hs, Hsc, Hh. repeat split; try assumption; try lia.
  intros H. apply I8, Hg, H.
Qed.

Lemma Inv_reset (st : State) (g : GameState) :
  g <> gameOver -> 0 <= highScore st <= 399 -> Inv (setGameState g (resetGame st)).
Proof.
  intros Hg Hh. unfold Inv. cbn. repeat split; try lia; try discriminate.
  - repeat constructor; unfold GRID_SIZE; simpl; lia.
  - constructor; [intros [] | constructor].
  - left. reflexivity.
Qed.

Lemma Inv_highScore (st : State) : Inv st -> 0 <= highScore st <= 399.
Proof. intros (_ & _ & _ & _ & _ & _ & H & _). exact H. Qed.

Lemma Inv_score_bounds (st : State) : Inv st -> 0 <= score st <= 399.
Proof.
  intros (I1 & I2 & I3 & _ & _ & I6 & _).
  pose proof (snake_fits_board _ I3 I2) as Hlen.
  destruct (snake st); [congruence|]. simpl List.length in *. lia.
Qed.

Lemma changeDirection_isDirection (key : string) (st : State) :
  isDirection (direction st) -> isDirection (direction (changeDirection key st)).
Proof.
  intros H. unfold changeDirection, isDirection.
  repeat match goal with
         | |- context [if ?b then _ else _] => destruct b
         end; cbn; auto.
Qed.

Lemma togglePause_frame (st : State) :
  snake (togglePause st) = snake st
  /\ food (togglePause st) = food st
  /\ direction (togglePause st) = direction st
  /\ score (togglePause st) = score st
  /\ highScore (togglePause st) = highScore st
  /\ gameSpeed (togglePause st) = gameSpeed st
  /\ arrowKeyProcessingRef (togglePause st) = arrowKeyProcessingRef st
  /\ (gameState (togglePause st) = gameOver -> gameState st = gameOver).
Proof.
  unfold togglePause. destruct (gameState st) eqn:E; cbn; rewrite ?E; repeat split;
    intros; congruence.
Qed.

Lemma handleKeyDown_cases (key : string) (st : State) :
  handleKeyDown key st = togglePause st
  \/ handleKeyDown key st = st
  \/ handleKeyDown key st = changeDirection key (setArrowKeyProcessingRef (Some key) st).
Proof.
  unfold handleKeyDown.
  repeat match goal with
         | |- context [if ?b then _ else _] => destruct b
         end; auto.
Qed.

Lemma Inv_togglePause (st : State) : Inv st -> Inv (togglePause st).
Proof.
  destruct (togglePause_frame st) as (H1 & _ & H3 & H4 & H5 & _ & _ & H8).
  intros HI. apply (Inv_frame st); try assumption.
  rewrite H3. apply HI.
Qed.

Lemma Inv_changeDirection (key : string) (st : State) :
  Inv st -> Inv (changeDirection key st).
Proof.
  destruct (changeDirection_frame key st) as (H1 & _ & H3 & H4 & _ & H6 & _).
  intros HI. apply (Inv_frame st); try assumption.
  - apply changeDirection_isDirection, HI.
  - rewrite H6. intros H. exact H.
Qed.

Lemma Inv_handleKeyDown (key : string) (st : State) :
  Inv st -> Inv (handleKeyDown key st).
Proof.
  intros HI. destruct (handleKeyDown_cases key st) as [-> | [-> | ->]].
  - apply Inv_togglePause, HI.
  - exact HI.
  - apply Inv_changeDirection. exact HI.
Qed.

Lemma Inv_collide (st : State) :
  Inv st -> Inv (setArrowKeyProcessingRef None (collide st)).
Proof.
  intros HI. pose proof (Inv_score_bounds st HI) as Hsc.
  destruct HI as (I1 & I2 & I3 & I4 & I5 & I6 & I7 & I8).
  destruct (collide_fields st) as (Hg & Hsn & Hf & Hs & Hd & Hh).
  unfold Inv. cbn [snake direction score highScore gameState setArrowKeyProcessingRef].
  rewrite Hsn, Hs, Hd, Hh.
  repeat split; try assumption; destruct (score st >? highScore st) eqn:E; lia.
Qed.

Lemma Inv_moveSnake (st st' : State) (rand rand' : list Cell) :
  Inv st -> moveSnake st rand = Some (st', rand') -> Inv st'.
Proof.
  intros HI Hm.
  destruct (GameState_eqb (gameState st) playing) eqn:Eg.
  2:{ unfold moveSnake in Hm. rewrite Eg in Hm. injection Hm as <- <-. exact HI. }
  assert (Hp : gameState st = playing) by (destruct (gameState st); (reflexivity || discriminate)).
  rewrite (moveSnake_playing _ _ Hp) in Hm.
  pose proof (Inv_collide st HI) as Hcol.
  destruct HI as (I1 & I2 & I3 & I4 & I5 & I6 & I7 & I8).
  destruct (snake st) as [|segment0 body] eqn:Hs; [congruence|].
  rewrite (updateSnake_cons _ _ _ _ Hs) in Hm. cbv zeta in Hm.
  set (head := advance segment0 (direction st)) in *.
  destruct (hits_wall head) eqn:Ew; [injection Hm as <- <-; exact Hcol|].
  destruct (existsb (same_cell head) (snake st)) eqn:Es; [injection Hm as <- <-; exact Hcol|].
  apply hits_wall_false in Ew. apply some_same_cell_notin in Es. rewrite Hs in Es.
  assert (Hadj : adjacent head segment0) by (apply adjacent_advance; exact I5).
  destruct ((x head =? x (food st)) && (y head =? y (food st))).
  - destruct (generateFood (snake st) rand) as [[newFood r]|]; [|discriminate].
    injection Hm as <- <-. unfold Inv.
    cbn [snake direction score highScore gameState setArrowKeyProcessingRef
         setFood setScore setSnake].
    rewrite Hs, Hp. repeat split; try assumption; try lia; try discriminate.
    + constructor; assumption.
    + constructor; assumption.
    + simpl List.length in *. lia.
  - injection Hm as <- <-. unfold Inv.
    cbn [snake direction score highScore gameState setArrowKeyProcessingRef setSnake].
    rewrite Hs, Hp.
    repeat split; try assumption; try lia; try discriminate.
    + constructor; [exact Ew | apply Forall_removelast; exact I2].
    + constructor; [|apply NoDup_removelast; exact I3].
      intros Hin. apply Es. apply In_removelast. exact Hin.
    + change (connected (removelast (head :: segment0 :: body))).
      apply connected_removelast. split; assumption.
    + change (head :: removelast (segment0 :: body))
        with (removelast (head :: segment0 :: body)).
      rewrite length_removelast_cons. exact I6.
Qed.

Lemma Inv_step (e : Event) (st st' : State) (rand rand' : list Cell) :
  Inv st -> step e st rand = Some (st', rand') -> Inv st'.
Proof.
  intros HI Hstep. pose proof (Inv_highScore st HI) as Hh.
  destruct e as [|key|g| | | |k]; cbn in Hstep.
  - exact (Inv_moveSnake _ _ _ _ HI Hstep).
  - injection Hstep as <- <-. apply Inv_handleKeyDown, HI.
  - injection Hstep as <- <-.
    destruct g; cbn [onGesture];
      first [apply Inv_changeDirection | apply Inv_togglePause]; exact HI.
  - destruct (gameState st); injection Hstep as <- <-; try exact HI;
      apply (Inv_reset st playing); (discriminate || exact Hh).
  - destruct (gameState st); injection Hstep as <- <-; try exact HI;
      apply Inv_togglePause, HI.
  - injection Hstep as <- <-.
    change (resetGame st) with (setGameState waiting (resetGame st)).
    apply Inv_reset; (discriminate || exact Hh).
  - injection Hstep as <- <-. apply (Inv_frame st); try reflexivity; try apply HI.
    intros H. exact H.
Qed.

Lemma Inv_run (evs : list Event) (st st' : State) (rand rand' : list Cell) :
  Inv st -> run evs st rand = Some (st', rand') -> Inv st'.
Proof.
  revert st rand. induction evs as [|e evs IH]; intros st rand HI Hrun; simpl in Hrun.
  - injection Hrun as <- <-. exact HI.
  - destruct (step e st rand) as [[st1 rand1]|] eqn:Es; [|discriminate].
    exact (IH _ _ (Inv_step _ _ _ _ _ HI Es) Hrun).
Qed.

Lemma reachable_Inv (st : State) : reachable st -> Inv st.
Proof.
  intros (evs & rand & rand' & Hrun). exact (Inv_run _ _ _ _ _ Inv_initial Hrun).
Qed.

Lemma reachable_initial : reachable initial.
Proof. exists [], [], []. reflexivity. Defined.

Lemma reachable_after_first_food : reachable after_first_food.
Proof. exists eat_first_food, [mkCell 15 15], []. vm_compute. reflexivity. Defined.

(** Every tick that returns is one of the five outcomes. *)
Lemma moveSnake_outcome (st st' : State) (rand rand' : list Cell) :
  moveSnake st rand = Some (st', rand') -> TickOutcome st rand st' rand'.
Proof.
  intros Hm.
  destruct (GameState_eqb (gameState st) playing) eqn:Eg.
  2:{ unfold moveSnake in Hm. rewrite Eg in Hm. injection Hm as <- <-.
      apply tick_idle. intros H. rewrite H in Eg. discriminate. }
  assert (Hp : gameState st = playing) by (destruct (gameState st); (reflexivity || discriminate)).
  rewrite (moveSnake_playing _ _ Hp) in Hm.
  destruct (snake st) as [|segment0 body] eqn:Hs.
  { unfold updateSnake in Hm. rewrite Hs in Hm. injection Hm as <- <-.
    apply tick_no_snake; assumption. }
  rewrite (updateSnake_cons _ _ _ _ Hs) in Hm. cbv zeta in Hm.
  destruct (hits_wall (advance segment0 (direction st))) eqn:Ew.
  { injection Hm as <- <-. apply (tick_collision st rand segment0 body); auto. }
  destruct (existsb (same_cell (advance segment0 (direction st))) (snake st)) eqn:Es.
  { injection Hm as <- <-. apply (tick_collision st rand segment0 body); auto.
    right. apply some_same_cell_In. exact Es. }
  apply hits_wall_false in Ew. apply some_same_cell_notin in Es.
  destruct ((x (advance segment0 (direction st)) =? x (food st))
            && (y (advance segment0 (direction st)) =? y (food st))) eqn:Ef.
  - destruct (generateFood (snake st) rand) as [[newFood r]|] eqn:Egen; [|discriminate].
    injection Hm as <- <-.
    apply (tick_eat st rand segment0 body); auto.
    apply andb_true_iff in Ef. destruct Ef as [E1 E2]. apply Z.eqb_eq in E1, E2.
    destruct (food st); unfold advance in *; simpl in *. congruence.
  - injection Hm as <- <-.
    apply (tick_slide st rand segment0 body); auto.
    intros Heq. rewrite <- Heq, !Z.eqb_refl in Ef. discriminate.
Qed.

(** X1. Whatever the events and the draws, the snake has a head and all
    of its segments lie on the board. *)
Theorem reachable_snake_on_board (st : State) :
  reachable st -> snake st <> [] /\ Forall in_grid (snake st).
Proof.
  intros H. destruct (reachable_Inv st H) as (I1 & I2 & _). split; assumption.
Qed.

Lemma reachable_snake_on_board_witness :
  snake after_first_food <> [] /\ Forall in_grid (snake after_first_food).
Proof. exact (reachable_snake_on_board after_first_food reachable_after_first_food). Defined.

(** X2. In every reachable state no two segments of the snake share a
    cell and every segment is next to the one behind it. *)
Theorem reachable_snake_simple_path (st : State) :
  reachable st -> NoDup (snake st) /\ connected (snake st).
Proof.
  intros H. destruct (reachable_Inv st H) as (_ & _ & I3 & I4 & _). split; assumption.
Qed.

Lemma reachable_snake_simple_path_witness :
  NoDup (snake after_first_food) /\ connected (snake after_first_food).
Proof. exact (reachable_snake_simple_path after_first_food reachable_after_first_food). Defined.

(** X3. In every reachable state the direction is one of the four unit
    vectors, whichever of keys and swipes changed it. *)
Theorem reachable_direction_unit (st : State) :
  reachable st -> isDirection (direction st).
Proof.
  intros H. destruct (reachable_Inv st H) as (_ & _ & _ & _ & I5 & _). exact I5.
Qed.

Lemma reachable_direction_unit_witness : isDirection (direction after_first_food).
Proof. exact (reachable_direction_unit after_first_food reachable_after_first_food). Defined.

(** X4. In every reachable state the score is the number of segments
    beyond the first, so it lies between 0 and 399 and the snake never
    has more than 400 segments. *)
Theorem reachable_score_counts_growth (st : State) :
  reachable st ->
  score st = Z.of_nat (List.length (snake st)) - 1
  /\ 0 <= score st <= 399
  /\ (List.length (snake st) <= 400)%nat.
Proof.
  intros H. pose proof (reachable_Inv st H) as HI.
  pose proof (Inv_score_bounds st HI) as Hb.
  destruct HI as (_ & I2 & I3 & _ & _ & I6 & _).
  split; [exact I6|]. split; [exact Hb|]. apply snake_fits_board; assumption.
Qed.

Lemma reachable_score_counts_growth_witness :
  score after_first_food = Z.of_nat (List.length (snake after_first_food)) - 1
  /\ 0 <= score after_first_food <= 399
  /\ (List.length (snake after_first_food) <= 400)%nat.
Proof. exact (reachable_score_counts_growth after_first_food reachable_after_first_food). Defined.

Lemma step_highScore (e : Event) (st st' : State) (rand rand' : list Cell) :
  step e st rand = Some (st', rand') ->
  highScore st <= highScore st'
  /\ (highScore st' = highScore st \/ highScore st' = score st).
Proof.
  intros Hstep. destruct e as [|key|g| | | |k]; cbn in Hstep.
  - destruct (moveSnake_outcome _ _ _ _ Hstep); cbn; try (split; [lia | left; reflexivity]).
    destruct (collide_fields st) as (_ & _ & _ & _ & _ & ->).
    destruct (score st >? highScore st) eqn:E; [|split; [lia | left; reflexivity]].
    apply Z.gtb_gt in E. split; [lia | right; reflexivity].
  - injection Hstep as <- <-.
    destruct (handleKeyDown_cases key st) as [-> | [-> | ->]].
    + destruct (togglePause_frame st) as (_ & _ & _ & _ & -> & _). split; [lia | left; reflexivity].
    + split; [lia | left; reflexivity].
    + destruct (changeDirection_frame key (setArrowKeyProcessingRef (Some key) st))
        as (_ & _ & _ & -> & _). cbn. split; [lia | left; reflexivity].
  - injection Hstep as <- <-. destruct g; cbn [onGesture];
      try (match goal with
           | |- context [changeDirection ?k st] =>
               destruct (changeDirection_frame k st) as (_ & _ & _ & -> & _)
           end; split; [lia | left; reflexivity]).
    destruct (togglePause_frame st) as (_ & _ & _ & _ & -> & _). split; [lia | left; reflexivity].
  - destruct (gameState st); injection Hstep as <- <-; cbn; split; (lia || (left; reflexivity)).
  - destruct (gameState st); injection Hstep as <- <-;
      try (split; [lia | left; reflexivity]);
      destruct (togglePause_frame st) as (_ & _ & _ & _ & -> & _); split; (lia || (left; reflexivity)).
  - injection Hstep as <- <-. cbn. split; [lia | left; reflexivity].
  - injection Hstep as <- <-. cbn. split; [lia | left; reflexivity].
Qed.

(** X5. Over any sequence of events, from any state, the high score never
    decreases. *)
Theorem highScore_never_decreases (evs : list Event) (st st' : State)
    (rand rand' : list Cell) :
  run evs st rand = Some (st', rand') -> highScore st <= highScore st'.
Proof.
  revert st rand. induction evs as [|e evs IH]; intros st rand Hrun; simpl in Hrun.
  - injection Hrun as <- <-. lia.
  - destruct (step e st rand) as [[st1 rand1]|] eqn:Es; [|discriminate].
    destruct (step_highScore _ _ _ _ _ Es) as [H _].
    specialize (IH _ _ Hrun). lia.
Qed.

Lemma highScore_never_decreases_witness :
  highScore initial <= highScore after_first_food.
Proof.
  apply (highScore_never_decreases eat_first_food initial after_first_food
           [mkCell 15 15] []).
  vm_compute. reflexivity.
Defined.

(** X6. In every reachable state the high score lies between 0 and 399,
    and once the game is over it is at least the score of the game that
    just ended. *)
Theorem reachable_final_score_recorded (st : State) :
  reachable st ->
  0 <= highScore st <= 399
  /\ (gameState st = gameOver -> score st <= highScore st).
Proof.
  intros H. destruct (reachable_Inv st H) as (_ & _ & _ & _ & _ & _ & I7 & I8).
  split; assumption.
Qed.

Lemma reachable_after_lost_game : reachable after_lost_game.
Proof. exists lost_game, [mkCell 15 15], []. vm_compute. reflexivity. Defined.

Lemma reachable_final_score_recorded_witness :
  0 <= highScore after_lost_game <= 399
  /\ score after_lost_game <= highScore after_lost_game.
Proof.
  destruct (reachable_final_score_recorded after_lost_game reachable_after_lost_game)
    as [H1 H2].
  exact (conj H1 (H2 eq_refl)).
Defined.

Lemma step_food_on_board (e : Event) (st st' : State) (rand rand' : list Cell) :
  step e st rand = Some (st', rand') ->
  Forall in_grid rand -> in_grid (food st) ->
  Forall in_grid rand' /\ in_grid (food st').
Proof.
  intros Hstep Hr Hf. destruct e as [|key|g| | | |k]; cbn in Hstep.
  - destruct (moveSnake_outcome _ _ _ _ Hstep) as [ | | s0 b | s0 b newFood r ? ? ? ? ? Hgen | ];
      cbn; try (split; assumption).
    + destruct (collide_fields st) as (_ & _ & -> & _). split; assumption.
    + apply generateFood_sound in Hgen. destruct Hgen as [_ [sk [-> _]]].
      apply Forall_app in Hr. destruct Hr as [_ Hr].
      inversion Hr; subst. split; assumption.
  - injection Hstep as <- <-. split; [exact Hr|].
    destruct (handleKeyDown_cases key st) as [-> | [-> | ->]].
    + destruct (togglePause_frame st) as (_ & -> & _). exact Hf.
    + exact Hf.
    + destruct (changeDirection_frame key (setArrowKeyProcessingRef (Some key) st))
        as (_ & -> & _). exact Hf.
  - injection Hstep as <- <-. split; [exact Hr|]. destruct g; cbn [onGesture];
      try (match goal with
           | |- context [changeDirection ?k st] =>
               destruct (changeDirection_frame k st) as (_ & -> & _)
           end; exact Hf).
    destruct (togglePause_frame st) as (_ & -> & _). exact Hf.
  - assert (Hi : in_grid INITIAL_FOOD) by (unfold in_grid, GRID_SIZE; simpl; lia).
    destruct (gameState st); injection Hstep as <- <-; split; assumption.
  - destruct (gameState st); injection Hstep as <- <-; split; try assumption;
      destruct (togglePause_frame st) as (_ & -> & _); exact Hf.
  - injection Hstep as <- <-. split; [exact Hr|].
    unfold in_grid, GRID_SIZE. simpl. lia.
  - injection Hstep as <- <-. split; assumption.
Qed.

(** X7. When every draw is a cell of the board, the food is on the board
    after any sequence of events from the initial state. *)
Theorem reachable_food_on_board (evs : list Event) (st : State)
    (rand rand' : list Cell) :
  run evs initial rand = Some (st, rand') ->
  Forall in_grid rand ->
  in_grid (food st).
Proof.
  assert (G : forall evs s r s' r',
             run evs s r = Some (s', r') -> Forall in_grid r -> in_grid (food s) ->
             in_grid (food s')).
  { clear. induction evs as [|e evs IH]; intros s r s' r' Hrun Hr Hf; simpl in Hrun.
    - injection Hrun as <- <-. exact Hf.
    - destruct (step e s r) as [[s1 r1]|] eqn:Es; [|discriminate].
      destruct (step_food_on_board _ _ _ _ _ Es Hr Hf) as [Hr1 Hf1].
      exact (IH _ _ _ _ Hrun Hr1 Hf1). }
  intros Hrun Hr. apply (G _ _ _ _ _ Hrun Hr).
  unfold in_grid, GRID_SIZE. simpl. lia.
Qed.

Lemma reachable_food_on_board_witness : in_grid (food after_first_food).
Proof.
  apply (reachable_food_on_board eat_first_food after_first_food [mkCell 15 15] []).
  - vm_compute. reflexivity.
  - constructor; [unfold in_grid, GRID_SIZE; simpl; lia | constructor].
Defined.

(** X8. An event changes [gameState] only along the transitions of
    [phase_move]: pause and resume by the pause button, a double tap, the
    space bar; game over by a tick; play by START GAME from the start and
    game-over screens; waiting by RESET. *)
Theorem phase_changes_are_listed (e : Event) (st st' : State)
    (rand rand' : list Cell) :
  step e st rand = Some (st', rand') ->
  gameState st' = gameState st
  \/ phase_move e (gameState st) (gameState st') = true.
Proof.
  intros Hstep. destruct e as [|key|g| | | |k]; cbn in Hstep.
  - destruct (moveSnake_outcome _ _ _ _ Hstep) as [ | | s0 b Hp | s0 b nf r Hp | s0 b Hp ];
      cbn; auto.
    destruct (collide_fields st) as (-> & _). rewrite Hp. right. reflexivity.
  - injection Hstep as <- <-. unfold handleKeyDown.
    destruct ((key =? " ")%string || (key =? "Spacebar")%string) eqn:Ek.
    + unfold togglePause. destruct (gameState st) eqn:Eg; cbn; rewrite ?Eg, ?Ek; auto.
    + left.
      repeat match goal with
             | |- context [if ?b then _ else _] => destruct b
             end; try reflexivity.
      destruct (changeDirection_frame key (setArrowKeyProcessingRef (Some key) st))
        as (_ & _ & _ & _ & _ & -> & _). reflexivity.
  - injection Hstep as <- <-. destruct g; cbn [onGesture];
      try (left;
           match goal with
           | |- context [changeDirection ?k st] =>
               destruct (changeDirection_frame k st) as (_ & _ & _ & _ & _ & -> & _)
           end; reflexivity).
    unfold togglePause. destruct (gameState st) eqn:Eg; cbn; rewrite ?Eg; auto.
  - destruct (gameState st) eqn:Eg; injection Hstep as <- <-; cbn; rewrite ?Eg; auto.
  - unfold togglePause in Hstep.
    destruct (gameState st) eqn:Eg; injection Hstep as <- <-; cbn; rewrite ?Eg; auto.
  - injection Hstep as <- <-. destruct (gameState st) eqn:Eg; cbn; auto.
  - injection Hstep as <- <-. left. reflexivity.
Qed.

Lemma phase_changes_are_listed_witness :
  gameState (setArrowKeyProcessingRef None (collide scenarioB)) = gameState scenarioB
  \/ phase_move Tick (gameState scenarioB)
       (gameState (setArrowKeyProcessingRef None (collide scenarioB))) = true.
Proof.
  apply (phase_changes_are_listed Tick scenarioB _ [] []). reflexivity.
Defined.

(** X9. Toggling the pause twice gives back the state it started from, in
    every phase; one toggle changes nothing but [gameState], and does
    nothing at all on the start and game-over screens. *)
Theorem togglePause_twice (st : State) :
  togglePause (togglePause st) = st
  /\ togglePause st = setGameState (gameState (togglePause st)) st
  /\ (gameState st = waiting \/ gameState st = gameOver -> togglePause st = st).
Proof.
  destruct st as [sn fo di sc hs gsp gst ref]. unfold togglePause.
  destruct gst; cbn; repeat split; intros [H | H]; discriminate H.
Qed.

Lemma togglePause_twice_witness : togglePause after_lost_game = after_lost_game.
Proof.
  exact (proj2 (proj2 (togglePause_twice after_lost_game)) (or_intror eq_refl)).
Defined.

Lemma step_idle_when_paused (e : Event) (st : State) (rand : list Cell) :
  gameState st = paused -> idle_when_paused e = true ->
  step e st rand = Some (st, rand).
Proof.
  intros Hp He. destruct e as [|key|g| | | |k]; try discriminate He; cbn.
  - apply moveSnake_not_playing. congruence.
  - cbn in He. apply negb_true_iff in He. unfold handleKeyDown.
    rewrite He, Hp. reflexivity.
Qed.

Lemma run_app (evs1 evs2 : list Event) (st : State) (rand : list Cell) :
  run (evs1 ++ evs2) st rand =
  match run evs1 st rand with
  | Some (st', rand') => run evs2 st' rand'
  | None => None
  end.
Proof.
  revert st rand. induction evs1 as [|e evs1 IH]; intros st rand; simpl; [reflexivity|].
  destruct (step e st rand) as [[st1 rand1]|]; [apply IH | reflexivity].
Qed.

(** X10. A paused game is frozen for the timer and the keyboard: ticks
    and keys other than the space bar leave the whole state and the
    draws untouched, so pausing a running game, any number of such
    events, and resuming gives back the state the game was paused in. *)
Theorem pause_freezes_game (evs : list Event) (st : State) (rand : list Cell) :
  gameState st = playing ->
  forallb idle_when_paused evs = true ->
  run (ClickPause :: evs) st rand = Some (setGameState paused st, rand)
  /\ run (ClickPause :: evs ++ [ClickPause]) st rand = Some (st, rand).
Proof.
  intros Hp Hevs.
  assert (Hfrozen : forall s, gameState s = paused ->
                              run evs s rand = Some (s, rand)).
  { clear st Hp. induction evs as [|e evs IH]; intros s Hs; [reflexivity|].
    simpl in Hevs. apply andb_true_iff in Hevs. destruct Hevs as [He Hevs].
    simpl. rewrite (step_idle_when_paused e s rand Hs He). apply IH; assumption. }
  assert (Hstep : step ClickPause st rand = Some (setGameState paused st, rand)).
  { cbn. rewrite Hp. unfold togglePause. rewrite Hp. reflexivity. }
  split.
  - change (run (ClickPause :: evs) st rand)
      with (match step ClickPause st rand with
            | Some (st', rand') => run evs st' rand'
            | None => None
            end).
    rewrite Hstep. apply Hfrozen. reflexivity.
  - change (run (ClickPause :: evs ++ [ClickPause]) st rand)
      with (match step ClickPause st rand with
            | Some (st', rand') => run (evs ++ [ClickPause]) st' rand'
            | None => None
            end).
    rewrite Hstep, run_app, Hfrozen by reflexivity.
    destruct st as [sn fo di sc hs gsp gst ref]. cbn in Hp. subst gst. reflexivity.
Qed.

Lemma pause_freezes_game_witness :
  run (ClickPause :: [Tick; KeyDown "ArrowLeft"; Tick]) after_first_food []
  = Some (setGameState paused after_first_food, [])
  /\ run (ClickPause :: [Tick; KeyDown "ArrowLeft"; Tick] ++ [ClickPause])
         after_first_food []
     = Some (after_first_food, []).
Proof.
  apply (pause_freezes_game [Tick; KeyDown "ArrowLeft"; Tick] after_first_food []);
    reflexivity.
Defined.

(** ** Food placement *)

Lemma generateFood_none (snake rand : list Cell) :
  generateFood snake rand = None <-> Forall (fun c => In c snake) rand.
Proof.
  induction rand as [|c rand IH]; simpl.
  - split; [constructor | reflexivity].
  - destruct (existsb (same_cell c) snake) eqn:E.
    + rewrite IH. split.
      * intros H. constructor; [apply some_same_cell_In; exact E | exact H].
      * intros H. inversion H; assumption.
    + split; [discriminate|]. intros H. inversion H as [|? ? Hc _]; subst.
      apply some_same_cell_In in Hc. congruence.
Qed.

(** X11. [generateFood] returns exactly the first draw that is off the
    snake together with the draws after it, skipping only draws on the
    snake; it is still sampling after the supplied draws exactly when all
    of them are on the snake. *)
Theorem generateFood_first_free_draw (snake rand : list Cell) :
  (forall newFood rest,
      generateFood snake rand = Some (newFood, rest) <->
      exists skipped,
        rand = skipped ++ newFood :: rest
        /\ Forall (fun c => In c snake) skipped
        /\ ~ In newFood snake)
  /\ (generateFood snake rand = None <-> Forall (fun c => In c snake) rand).
Proof.
  split; [|apply generateFood_none].
  intros newFood rest. split.
  - intros H. destruct (generateFood_sound _ _ _ _ H) as [Hn [sk [Hr Hsk]]].
    exists sk. repeat split; assumption.
  - intros [sk [-> [Hsk Hn]]]. induction Hsk as [|c sk Hc _ IH]; simpl.
    + apply some_same_cell_notin in Hn. rewrite Hn. reflexivity.
    + apply some_same_cell_In in Hc. rewrite Hc. exact IH.
Qed.

Lemma generateFood_first_free_draw_witness :
  generateFood [mkCell 5 5; mkCell 5 6] [mkCell 5 6; mkCell 3 7; mkCell 5 5]
  = Some (mkCell 3 7, [mkCell 5 5]).
Proof.
  apply (proj1 (generateFood_first_free_draw [mkCell 5 5; mkCell 5 6]
                  [mkCell 5 6; mkCell 3 7; mkCell 5 5])).
  exists [mkCell 5 6]. split; [reflexivity|]. split.
  - constructor; [right; left; reflexivity | constructor].
  - simpl. intros [H | [H | []]]; discriminate H.
Defined.

(** ** The keyboard *)

(** X12. While playing with no key recorded, of any arrow keys pressed
    before the next tick only the first has an effect: the state after
    all of them is the state after the first, its direction is the
    previous one or the one the first key asks for, and the tick that
    follows empties the record again. *)
Theorem keyboard_one_request_per_tick (k : string) (ks : list string) (st : State) :
  gameState st = playing ->
  truthy (arrowKeyProcessingRef st) = false ->
  isArrow k -> Forall isArrow ks ->
  keys (k :: ks) st = handleKeyDown k st
  /\ arrowKeyProcessingRef (keys (k :: ks) st) = Some k
  /\ (direction (keys (k :: ks) st) = direction st
      \/ Some (direction (keys (k :: ks) st)) = keyDirection k)
  /\ (forall rand st' rand',
         moveSnake (keys (k :: ks) st) rand = Some (st', rand') ->
         arrowKeyProcessingRef st' = None).
Proof.
  intros Hp Hr Hk Hks.
  rewrite (keys_first_only k ks st Hk Hks Hp Hr).
  rewrite (handleKeyDown_arrow_free k st Hk Hp Hr).
  destruct (changeDirection_frame k (setArrowKeyProcessingRef (Some k) st))
    as (_ & _ & _ & _ & _ & Hg & Href).
  split; [reflexivity|]. split; [exact Href|]. split.
  - unfold changeDirection, keyDirection. cbn [direction setArrowKeyProcessingRef].
    arrow_cases Hk; cbn [String.eqb Ascii.eqb Bool.eqb];
      match goal with
      | |- context [if ?b then _ else _] => destruct b
      end; cbn; auto.
  - intros rand st' rand' Hm. apply (moveSnake_clears_ref _ _ _ _ (eq_trans Hg Hp) Hm).
Qed.

Lemma keyboard_one_request_per_tick_witness :
  keys ["ArrowLeft"; "ArrowDown"; "ArrowRight"]%string curled
  = handleKeyDown "ArrowLeft" curled.
Proof.
  refine (proj1 (keyboard_one_request_per_tick "ArrowLeft"
                   ["ArrowDown"; "ArrowRight"]%string curled _ _ _ _)).
  - reflexivity.
  - reflexivity.
  - right. right. left. reflexivity.
  - apply Forall_cons; [right; left; reflexivity|].
    apply Forall_cons; [right; right; right; reflexivity|].
    apply Forall_nil.
Defined.

(** X13. No key ever changes the snake, the food, the score, the high
    score or the speed; a key that is neither an arrow nor the space bar
    changes nothing at all, and so does every arrow key outside of
    play. *)
Theorem handleKeyDown_frame (key : string) (st : State) :
  (snake (handleKeyDown key st) = snake st
   /\ food (handleKeyDown key st) = food st
   /\ score (handleKeyDown key st) = score st
   /\ highScore (handleKeyDown key st) = highScore st
   /\ gameSpeed (handleKeyDown key st) = gameSpeed st)
  /\ (~ isArrow key -> key <> " "%string -> key <> "Spacebar"%string ->
      handleKeyDown key st = st)
  /\ (isArrow key -> gameState st <> playing -> handleKeyDown key st = st).
Proof.
  split; [|split].
  - destruct (handleKeyDown_cases key st) as [-> | [-> | ->]].
    + destruct (togglePause_frame st) as (H1 & H2 & _ & H4 & H5 & H6 & _).
      repeat split; assumption.
    + repeat split.
    + destruct (changeDirection_frame key (setArrowKeyProcessingRef (Some key) st))
        as (H1 & H2 & H3 & H4 & H5 & _).
      repeat split; assumption.
  - intros Ha Hs1 Hs2. unfold handleKeyDown.
    apply String.eqb_neq in Hs1, Hs2. rewrite Hs1, Hs2. cbn [orb].
    destruct (negb (GameState_eqb (gameState st) playing)); [reflexivity|].
    unfold isArrow in Ha.
    destruct (String.eqb_spec key "ArrowUp"); [tauto|].
    destruct (String.eqb_spec key "ArrowDown"); [tauto|].
    destruct (String.eqb_spec key "ArrowLeft"); [tauto|].
    destruct (String.eqb_spec key "ArrowRight"); [tauto|]. reflexivity.
  - apply handleKeyDown_arrow_not_playing.
Qed.

Lemma handleKeyDown_frame_witness :
  handleKeyDown "Enter" after_first_food = after_first_food
  /\ handleKeyDown "ArrowLeft" after_lost_game = after_lost_game.
Proof.
  split.
  - refine (proj1 (proj2 (handleKeyDown_frame "Enter" after_first_food)) _ _ _).
    + intros [H | [H | [H | H]]]; discriminate H.
    + discriminate.
    + discriminate.
  - refine (proj2 (proj2 (handleKeyDown_frame "ArrowLeft" after_lost_game)) _ _).
    + right. right. left. reflexivity.
    + discriminate.
Defined.

(** ** Steering by keyboard only *)

Lemma not_reversing_ext (st st' : State) :
  snake st' = snake st -> direction st' = direction st ->
  not_reversing st -> not_reversing st'.
Proof. unfold not_reversing. intros -> ->. exact (fun H => H). Qed.

Lemma heading_forward_ext (st st' : State) :
  snake st' = snake st -> direction st' = direction st ->
  heading_forward st -> heading_forward st'.
Proof. unfold heading_forward. intros -> ->. exact (fun H => H). Qed.

Lemma advance_twice (c d : Cell) : isDirection d -> advance (advance c d) d <> c.
Proof.
  intros Hd H. destruct c as [cx cy]. unfold advance in H. simpl in H.
  injection H as H1 H2.
  destruct Hd as [-> | [-> | [-> | ->]]]; simpl in *; lia.
Qed.

Lemma advance_back (c d d' : Cell) :
  advance (advance c d) d' = c -> d' = opposite d.
Proof.
  destruct c as [cx cy], d as [dx dy], d' as [ex ey].
  unfold advance, opposite. simpl. intros H. injection H as H1 H2.
  f_equal; lia.
Qed.

Lemma isArrow_keyDirection (key : string) :
  isArrow key -> exists d, keyDirection key = Some d /\ isDirection d.
Proof.
  intros H. arrow_cases H; eexists; (split; [reflexivity|]); unfold isDirection; auto.
Qed.

(** The three ways a key event can end, with what the last one needs. *)
Lemma handleKeyDown_inv (key : string) (st : State) :
  handleKeyDown key st = togglePause st
  \/ handleKeyDown key st = st
  \/ (gameState st = playing /\ isArrow key
      /\ truthy (arrowKeyProcessingRef st) = false
      /\ handleKeyDown key st
         = changeDirection key (setArrowKeyProcessingRef (Some key) st)).
Proof.
  unfold handleKeyDown.
  destruct ((key =? " ")%string || (key =? "Spacebar")%string); [auto|].
  destruct (GameState_eqb (gameState st) playing) eqn:Eg; [|auto].
  assert (Hp : gameState st = playing) by (destruct (gameState st); (reflexivity || discriminate)).
  cbn [negb].
  destruct (String.eqb_spec key "ArrowUp") as [Hu|Hu];
    [|destruct (String.eqb_spec key "ArrowDown") as [Hd|Hd];
      [|destruct (String.eqb_spec key "ArrowLeft") as [Hl|Hl];
        [|destruct (String.eqb_spec key "ArrowRight") as [Hr|Hr]; [|auto]]]];
    cbn [negb andb];
    (destruct (truthy (arrowKeyProcessingRef st)) eqn:Et; [auto|]);
    right; right; unfold isArrow; repeat split; auto.
Qed.

Lemma togglePause_active (st : State) :
  gameState (togglePause st) = playing \/ gameState (togglePause st) = paused ->
  gameState st = playing \/ gameState st = paused.
Proof.
  unfold togglePause. destruct (gameState st) eqn:E; cbn; rewrite ?E; auto.
Qed.

Lemma KInv_initial : KInv initial.
Proof.
  unfold KInv, not_reversing, heading_forward. cbn.
  split; [left; reflexivity|]. split; [exact I | intros _ _; exact I].
Qed.

Lemma KInv_reset (st : State) (g : GameState) : KInv (setGameState g (resetGame st)).
Proof.
  unfold KInv, not_reversing, heading_forward. cbn.
  split; [left; reflexivity|]. split; [exact I | intros _ _; exact I].
Qed.

Lemma KInv_togglePause (st : State) : KInv st -> KInv (togglePause st).
Proof.
  intros (K0 & K2 & K1).
  destruct (togglePause_frame st) as (Hs & _ & Hd & _ & _ & _ & Hr & _).
  unfold KInv. rewrite Hd, Hr. split; [exact K0|]. split.
  - apply (not_reversing_ext st); assumption.
  - intros Hact Ht. apply (heading_forward_ext st); try assumption.
    apply K1; [apply togglePause_active; exact Hact | exact Ht].
Qed.

Lemma KInv_handleKeyDown (key : string) (st : State) :
  KInv st -> KInv (handleKeyDown key st).
Proof.
  intros HK.
  destruct (handleKeyDown_inv key st) as [-> | [-> | (Hp & Ha & Ht & ->)]].
  - apply KInv_togglePause, HK.
  - exact HK.
  - destruct HK as (K0 & K2 & K1).
    specialize (K1 (or_introl Hp) Ht).
    destruct (isArrow_keyDirection key Ha) as (d' & Hk & Hd').
    set (st1 := setArrowKeyProcessingRef (Some key) st).
    pose proof (changeDirection_unit key d' st1 K0 Hk) as Hc.
    destruct (changeDirection_frame key st1) as (Hs & _ & _ & _ & _ & _ & Hr).
    unfold KInv. rewrite Hr. cbn [arrowKeyProcessingRef setArrowKeyProcessingRef st1].
    rewrite (isArrow_truthy key Ha).
    split; [apply changeDirection_isDirection; exact K0|].
    split; [|intros _ H; discriminate H].
    destruct (same_cell (opposite (direction st1)) d') eqn:E; rewrite Hc.
    + apply (not_reversing_ext st); [reflexivity | reflexivity | exact K2].
    + unfold not_reversing, heading_forward in *.
      cbn [snake direction setDirection setArrowKeyProcessingRef st1] in *.
      destruct (snake st) as [|head [|neck rest]]; try exact I.
      intros Hback. rewrite <- K1 in Hback. apply advance_back in Hback.
      rewrite Hback in E.
      assert (E' : same_cell (opposite (direction st)) (opposite (direction st)) = true)
        by (apply same_cell_eq; reflexivity).
      congruence.
Qed.

Lemma KInv_moved (st st' : State) (segment0 : Cell) (body : list Cell) :
  isDirection (direction st) ->
  snake st = segment0 :: body ->
  direction st' = direction st ->
  snake st' = advance segment0 (direction st) :: snake st
  \/ snake st' = removelast (advance segment0 (direction st) :: snake st) ->
  KInv st'.
Proof.
  intros Hd Hs Hd' Hsn. unfold KInv, not_reversing, heading_forward.
  rewrite Hd'. split; [exact Hd|].
  assert (Hshape : snake st' = [advance segment0 (direction st)]
                   \/ exists rest, snake st'
                                   = advance segment0 (direction st) :: segment0 :: rest).
  { destruct Hsn as [-> | ->]; rewrite Hs.
    - right. eexists. reflexivity.
    - rewrite removelast_cons_cons. destruct body as [|b body'].
      + left. reflexivity.
      + right. rewrite removelast_cons_cons. eexists. reflexivity. }
  destruct Hshape as [-> | [rest ->]].
  - split; [exact I | intros _ _; exact I].
  - split; [apply advance_twice; exact Hd | intros _ _; reflexivity].
Qed.

Lemma KInv_moveSnake (st st' : State) (rand rand' : list Cell) :
  KInv st -> moveSnake st rand = Some (st', rand') -> KInv st'.
Proof.
  intros HK Hm. pose proof HK as (K0 & K2 & K1).
  destruct (moveSnake_outcome _ _ _ _ Hm) as [ | Hp Hs | s0 b Hp Hs | s0 b nf r Hp Hs | s0 b Hp Hs ].
  - exact HK.
  - unfold KInv, not_reversing, heading_forward. cbn. rewrite Hs.
    split; [exact K0|]. split; [exact I | intros _ _; exact I].
  - destruct (collide_fields st) as (Hg & Hsn & _ & _ & Hd & _).
    unfold KInv. cbn [direction gameState arrowKeyProcessingRef setArrowKeyProcessingRef].
    rewrite Hd, Hg. split; [exact K0|]. split.
    + apply (not_reversing_ext st); [exact Hsn | exact Hd | exact K2].
    + intros [Hact | Hact]; discriminate Hact.
  - apply (KInv_moved st _ s0 b K0 Hs); [reflexivity | left; reflexivity].
  - apply (KInv_moved st _ s0 b K0 Hs); [reflexivity | right; reflexivity].
Qed.

Lemma KInv_step (e : Event) (st st' : State) (rand rand' : list Cell) :
  no_swipe e = true -> KInv st -> step e st rand = Some (st', rand') -> KInv st'.
Proof.
  intros He HK Hstep. destruct e as [|key|g| | | |k]; cbn in Hstep.
  - exact (KInv_moveSnake _ _ _ _ HK Hstep).
  - injection Hstep as <- <-. apply KInv_handleKeyDown, HK.
  - destruct g; try discriminate He. injection Hstep as <- <-.
    apply KInv_togglePause, HK.
  - destruct (gameState st); injection Hstep as <- <-; try exact HK;
      apply (KInv_reset st playing).
  - destruct (gameState st); injection Hstep as <- <-; try exact HK;
      apply KInv_togglePause, HK.
  - injection Hstep as <- <-.
    change (resetGame st) with (setGameState waiting (resetGame st)). apply KInv_reset.
  - injection Hstep as <- <-. exact HK.
Qed.

(** X14. When the direction is changed by the keyboard only (no swipe
    among the events), the head is never about to step back onto the
    segment right behind it: a tick cannot end the game by reversing the
    snake into its own neck. *)
Theorem keyboard_never_reverses (evs : list Event) (st : State)
    (rand rand' : list Cell) :
  forallb no_swipe evs = true ->
  run evs initial rand = Some (st, rand') ->
  not_reversing st.
Proof.
  assert (G : forall evs s r s' r',
             forallb no_swipe evs = true -> KInv s ->
             run evs s r = Some (s', r') -> KInv s').
  { clear. induction evs as [|e evs IH]; intros s r s' r' Hev HK Hrun; simpl in *.
    - injection Hrun as <- <-. exact HK.
    - apply andb_true_iff in Hev. destruct Hev as [He Hev].
      destruct (step e s r) as [[s1 r1]|] eqn:Es; [|discriminate].
      exact (IH _ _ _ _ Hev (KInv_step _ _ _ _ _ He HK Es) Hrun). }
  intros Hev Hrun. destruct (G _ _ _ _ _ Hev KInv_initial Hrun) as (_ & H & _). exact H.
Qed.

Lemma keyboard_never_reverses_witness : not_reversing after_first_food.
Proof.
  apply (keyboard_never_reverses eat_first_food after_first_food [mkCell 15 15] []).
  - reflexivity.
  - vm_compute. reflexivity.
Defined.

(** ** The board drawn by [renderGrid] *)

Lemma nth_error_flat_map_rows (A B : Type) (f : A -> list B) (n : nat)
    (l : list A) (i j : nat) (a : A) :
  (forall a', List.length (f a') = n) ->
  nth_error l i = Some a -> (j < n)%nat ->
  nth_error (flat_map f l) (i * n + j) = nth_error (f a) j.
Proof.
  intros Hlen. revert i. induction l as [|a0 l IH]; intros i Hi Hj.
  - destruct i; discriminate Hi.
  - simpl flat_map. destruct i as [|i]; simpl in Hi.
    + injection Hi as ->. simpl. apply nth_error_app1. rewrite Hlen. exact Hj.
    + rewrite nth_error_app2 by (rewrite Hlen; simpl; lia).
      rewrite Hlen. replace (S i * n + j - n)%nat with (i * n + j)%nat by (simpl; lia).
      apply IH; assumption.
Qed.

Lemma nth_error_indices (i : Z) :
  0 <= i < GRID_SIZE -> nth_error indices (Z.to_nat i) = Some i.
Proof.
  intros H. unfold indices. rewrite nth_error_map.
  assert (Hlt : (Z.to_nat i < Z.to_nat GRID_SIZE)%nat) by lia.
  rewrite (nth_error_nth' (seq 0 (Z.to_nat GRID_SIZE)) 0%nat)
    by (rewrite length_seq; exact Hlt).
  rewrite seq_nth by exact Hlt. simpl. f_equal. lia.
Qed.

(** X15. The board always has 400 cells, and the cell pushed for row
    [row] and column [col] is the one at position [row * 20 + col]. *)
Theorem renderGrid_row_major (snake : list Cell) (food : Cell) (row col : Z) :
  0 <= row < GRID_SIZE -> 0 <= col < GRID_SIZE ->
  List.length (renderGrid snake food) = 400%nat
  /\ nth_error (renderGrid snake food) (Z.to_nat (row * GRID_SIZE + col))
     = Some (gridCell snake food row col).
Proof.
  intros Hr Hc. split.
  - unfold renderGrid. rewrite flat_map_concat_map, length_concat, map_map.
    reflexivity.
  - unfold renderGrid.
    replace (Z.to_nat (row * GRID_SIZE + col))
      with (Z.to_nat row * Z.to_nat GRID_SIZE + Z.to_nat col)%nat
      by (unfold GRID_SIZE in *; lia).
    rewrite (nth_error_flat_map_rows _ _ _ (Z.to_nat GRID_SIZE) indices _ _ row).
    + rewrite nth_error_map, (nth_error_indices col Hc). reflexivity.
    + intros row'. rewrite length_map. reflexivity.
    + apply nth_error_indices. exact Hr.
    + unfold GRID_SIZE in *. lia.
Qed.

Lemma renderGrid_row_major_witness :
  List.length (renderGrid (snake after_first_food) (food after_first_food)) = 400%nat
  /\ nth_error (renderGrid (snake after_first_food) (food after_first_food))
       (Z.to_nat (14 * GRID_SIZE + 15))
     = Some (gridCell (snake after_first_food) (food after_first_food) 14 15).
Proof.
  apply (renderGrid_row_major (snake after_first_food) (food after_first_food) 14 15);
    unfold GRID_SIZE; lia.
Defined.

Lemma some_indexed_positive (row col index : Z) (l : list Cell) :
  0 < index ->
  some_indexed
    (fun segment i => (i >? 0) && (x segment =? col) && (y segment =? row)) index l
  = existsb (same_cell (mkCell col row)) l.
Proof.
  revert index. induction l as [|segment l IH]; intros index Hi; simpl; [reflexivity|].
  rewrite IH by lia. unfold same_cell. simpl.
  replace (index >? 0) with true by (symmetry; apply Z.gtb_lt; lia).
  reflexivity.
Qed.

Lemma is_head_spec (snake : list Cell) (row col : Z) :
  is_head snake row col = true <-> hd_error snake = Some (mkCell col row).
Proof.
  unfold is_head. destruct snake as [|[sx sy] rest]; simpl.
  - split; discriminate.
  - rewrite andb_true_iff, !Z.eqb_eq. split.
    + intros [-> ->]. reflexivity.
    + intros H. injection H as -> ->. split; reflexivity.
Qed.

Lemma is_body_spec (snake : list Cell) (row col : Z) :
  is_body snake row col = true <-> In (mkCell col row) (tl snake).
Proof.
  unfold is_body. destruct snake as [|segment rest]; simpl.
  - split; [discriminate | intros []].
  - rewrite some_indexed_positive by lia. apply some_same_cell_In.
Qed.

Lemma is_food_spec (food : Cell) (row col : Z) :
  is_food food row col = true <-> food = mkCell col row.
Proof.
  unfold is_food. destruct food as [fx fy]. simpl.
  rewrite andb_true_iff, !Z.eqb_eq. split.
  - intros [-> ->]. reflexivity.
  - intros H. injection H as -> ->. split; reflexivity.
Qed.

Lemma on_snake_head_or_body (snake : list Cell) (c : Cell) :
  In c snake <-> hd_error snake = Some c \/ In c (tl snake).
Proof.
  destruct snake as [|s rest]; simpl.
  - split; [intros [] | intros [H | []]; discriminate H].
  - split.
    + intros [-> | H]; auto.
    + intros [H | H]; [injection H as ->; auto | auto].
Qed.

(** X16. A cell of the board gets a snake colour exactly when a segment
    is on it (the head colour and the eyes exactly on the first
    segment), the food colour exactly when the food is on it and no
    segment is, and the white food dot exactly when the food is on it,
    be it under a segment. *)
Theorem cell_shows_what_is_on_it (snake : list Cell) (food : Cell) (row col : Z) :
  let cell := gridCell snake food row col in
  (className cell = "w-4 h-4 border border-gray-800 bg-lime-400 shadow-inner relative"%string
   \/ className cell = "w-4 h-4 border border-gray-800 bg-green-500 shadow-inner"%string
   <-> In (mkCell col row) snake)
  /\ (className cell = "w-4 h-4 border border-gray-800 bg-lime-400 shadow-inner relative"%string
      <-> hd_error snake = Some (mkCell col row))
  /\ (eyes cell = true <-> hd_error snake = Some (mkCell col row))
  /\ (className cell = "w-4 h-4 border border-gray-800 bg-red-500 shadow-inner relative"%string
      <-> food = mkCell col row /\ ~ In (mkCell col row) snake)
  /\ (className cell = "w-4 h-4 border border-gray-800 bg-gray-900"%string
      <-> food <> mkCell col row /\ ~ In (mkCell col row) snake)
  /\ (dot cell = true <-> food = mkCell col row).
Proof.
  cbv zeta. unfold gridCell, cellClass. cbn [className eyes dot].
  rewrite (on_snake_head_or_body snake (mkCell col row)).
  rewrite <- (is_head_spec snake row col), <- (is_body_spec snake row col),
    <- (is_food_spec food row col).
  destruct (is_head snake row col), (is_body snake row col), (is_food food row col);
    cbn; repeat split; try discriminate; try tauto; intuition discriminate.
Qed.

(** ** The component of [App.jsx] *)

Lemma App_handleKeyPress_frame (key : string) (a : App.State) :
  App.snake (App.handleKeyPress key a) = App.snake a
  /\ App.food (App.handleKeyPress key a) = App.food a
  /\ App.score (App.handleKeyPress key a) = App.score a
  /\ App.highScore (App.handleKeyPress key a) = App.highScore a
  /\ App.gameOver (App.handleKeyPress key a) = App.gameOver a
  /\ App.isPlaying (App.handleKeyPress key a) = App.isPlaying a
  /\ (isDirection (App.direction a) ->
      isDirection (App.direction (App.handleKeyPress key a))).
Proof.
  unfold App.handleKeyPress, isDirection.
  repeat match goal with
         | |- context [if ?b then _ else _] => destruct b
         end; cbn; repeat split; auto.
Qed.

Lemma AppInv_reset (a : App.State) (p : bool) :
  AppInv (App.setIsPlaying p (App.resetGame a)).
Proof.
  unfold AppInv. cbn. repeat split; try discriminate. left. reflexivity.
Qed.

Lemma AppInv_collide (a : App.State) : AppInv a -> AppInv (App.collide a).
Proof.
  intros (A1 & A2 & A3 & A4). unfold AppInv, App.collide.
  destruct (App.score a >? App.highScore a); cbn; repeat split; assumption.
Qed.

Lemma AppInv_moveSnake (a a' : App.State) (rand rand' : list Cell) :
  AppInv a -> App.moveSnake a rand = Some (a', rand') -> AppInv a'.
Proof.
  intros HA Hm. pose proof (AppInv_collide a HA) as Hcol.
  destruct HA as (A1 & A2 & A3 & A4). unfold App.moveSnake in Hm.
  destruct (negb (App.isPlaying a) || App.gameOver a) eqn:Eidle.
  { injection Hm as <- <-. repeat split; assumption. }
  apply orb_false_iff in Eidle. destruct Eidle as [_ Ego].
  destruct (App.snake a) as [|segment0 body] eqn:Hs; [congruence|].
  set (head := advance segment0 (App.direction a)) in *.
  destruct (hits_wall head); [injection Hm as <- <-; exact Hcol|].
  destruct (existsb (same_cell head) (segment0 :: body));
    [injection Hm as <- <-; exact Hcol|].
  destruct ((x head =? x (App.food a)) && (y head =? y (App.food a))).
  - destruct (generateFood (segment0 :: body) rand) as [[newFood r]|]; [|discriminate].
    injection Hm as <- <-. unfold AppInv.
    cbn [App.snake App.score App.gameOver App.isPlaying App.direction
         App.setSnake App.setScore App.setFood].
    rewrite Ego. repeat split; try assumption; try discriminate.
    change (List.length (head :: segment0 :: body))
      with (S (List.length (segment0 :: body))).
    lia.
  - injection Hm as <- <-. unfold AppInv.
    cbn [App.snake App.score App.gameOver App.isPlaying App.direction App.setSnake].
    change (head :: match body with
                    | [] => []
                    | _ :: _ => segment0 :: removelast body
                    end)
      with (removelast (head :: segment0 :: body)).
    rewrite length_removelast_cons, removelast_cons_cons.
    repeat split; try assumption; discriminate.
Qed.

Lemma AppInv_step (e : App.Event) (a a' : App.State) (rand rand' : list Cell) :
  AppInv a -> App.step e a rand = Some (a', rand') -> AppInv a'.
Proof.
  intros HA Hstep. destruct e as [|key| | |k]; cbn in Hstep.
  - exact (AppInv_moveSnake _ _ _ _ HA Hstep).
  - injection Hstep as <- <-. destruct HA as (A1 & A2 & A3 & A4).
    destruct (App_handleKeyPress_frame key a) as (H1 & _ & H3 & _ & H5 & H6 & H7).
    unfold AppInv. rewrite H1, H3, H5, H6. repeat split; auto.
  - destruct (App.gameOver a || negb (App.isPlaying a) && negb (App.gameOver a));
      injection Hstep as <- <-; [apply AppInv_reset | exact HA].
  - injection Hstep as <- <-. apply (AppInv_reset a false).
  - injection Hstep as <- <-. exact HA.
Qed.

(** X17. In every state [App.jsx] can reach, the snake has a head, the
    score is ten times the number of segments beyond the first, the
    direction is a unit vector, and [gameOver] and [isPlaying] never hold
    together. *)
Theorem App_reachable_invariant (a : App.State) :
  App.reachable a ->
  App.snake a <> []
  /\ App.score a = 10 * (Z.of_nat (List.length (App.snake a)) - 1)
  /\ isDirection (App.direction a)
  /\ ~ (App.gameOver a = true /\ App.isPlaying a = true).
Proof.
  intros (evs & rand & rand' & Hrun).
  assert (G : forall evs s r s' r',
             AppInv s -> App.run evs s r = Some (s', r') -> AppInv s').
  { clear. induction evs as [|e evs IH]; intros s r s' r' HA Hrun; simpl in Hrun.
    - injection Hrun as <- <-. exact HA.
    - destruct (App.step e s r) as [[s1 r1]|] eqn:Es; [|discriminate].
      exact (IH _ _ _ _ (AppInv_step _ _ _ _ _ HA Es) Hrun). }
  assert (H0 : AppInv App.initial).
  { unfold AppInv. cbn. repeat split; try discriminate. left. reflexivity. }
  destruct (G _ _ _ _ _ H0 Hrun) as (A1 & A2 & A3 & A4).
  repeat split; try assumption.
  intros [Hgo Hip]. rewrite (A3 Hgo) in Hip. discriminate.
Qed.

Lemma App_reachable_after_first_food : App.reachable App_after_first_food.
Proof. exists App_eat_first_food, [mkCell 15 15], []. vm_compute. reflexivity. Defined.

Lemma App_reachable_invariant_witness :
  App.snake App_after_first_food <> []
  /\ App.score App_after_first_food
     = 10 * (Z.of_nat (List.length (App.snake App_after_first_food)) - 1)
  /\ isDirection (App.direction App_after_first_food)
  /\ ~ (App.gameOver App_after_first_food = true
        /\ App.isPlaying App_after_first_food = true).
Proof.
  exact (App_reachable_invariant App_after_first_food App_reachable_after_first_food).
Defined.

Lemma keyFor_quarterTurn (d : Cell) (a : App.State) :
  isDirection d -> App.isPlaying a = true -> App.direction a = d ->
  App.handleKeyPress (keyFor (quarterTurn d)) a = App.setDirection (quarterTurn d) a.
Proof.
  intros Hd Hp Ha. unfold App.handleKeyPress. rewrite Hp, Ha.
  destruct Hd as [-> | [-> | [-> | ->]]]; reflexivity.
Qed.

Lemma keyFor_opposite_after_turn (d : Cell) (a : App.State) :
  isDirection d -> App.isPlaying a = true -> App.direction a = quarterTurn d ->
  App.handleKeyPress (keyFor (opposite d)) a = App.setDirection (opposite d) a.
Proof.
  intros Hd Hp Ha. unfold App.handleKeyPress. rewrite Hp, Ha.
  destruct Hd as [-> | [-> | [-> | ->]]]; reflexivity.
Qed.

(** X18. [App.jsx] keeps no record of a key per tick: while playing, in
    whatever unit direction the snake heads, the key of a quarter turn
    followed by the key of the opposite direction reverses the direction
    before the next tick, and with a segment behind the head that tick
    ends the game with the snake where it was. *)
Theorem App_two_keys_reverse (a : App.State) (head neck : Cell) (rest rand : list Cell) :
  App.isPlaying a = true ->
  App.gameOver a = false ->
  isDirection (App.direction a) ->
  App.snake a = head :: neck :: rest ->
  advance neck (App.direction a) = head ->
  let d := App.direction a in
  let a2 := App.handleKeyPress (keyFor (opposite d))
              (App.handleKeyPress (keyFor (quarterTurn d)) a) in
  a2 = App.setDirection (opposite d) a
  /\ exists a3,
       App.moveSnake a2 rand = Some (a3, rand)
       /\ App.gameOver a3 = true /\ App.isPlaying a3 = false
       /\ App.snake a3 = App.snake a /\ App.score a3 = App.score a.
Proof.
  intros Hp Hgo Hd Hs Hn d a2.
  assert (Ha2 : a2 = App.setDirection (opposite d) a).
  { unfold a2, d. rewrite (keyFor_quarterTurn _ a Hd Hp eq_refl).
    rewrite (keyFor_opposite_after_turn (App.direction a)) by (assumption || reflexivity).
    reflexivity. }
  split; [exact Ha2|]. rewrite Ha2.
  exists (App.collide (App.setDirection (opposite d) a)). split.
  - unfold App.moveSnake.
    cbn [App.isPlaying App.gameOver App.snake App.direction App.food App.setDirection].
    rewrite Hp, Hgo, Hs. cbn [negb orb].
    assert (Hback : advance head (opposite d) = neck).
    { unfold d. rewrite <- Hn. destruct neck as [nx ny], (App.direction a) as [dx dy].
      unfold advance, opposite. simpl. f_equal; lia. }
    rewrite Hback.
    destruct (hits_wall neck); [reflexivity|].
    assert (E : existsb (same_cell neck) (head :: neck :: rest) = true).
    { apply some_same_cell_In. right. left. reflexivity. }
    rewrite E. reflexivity.
  - unfold App.collide. cbn [App.score App.highScore App.setDirection].
    destruct (App.score a >? App.highScore a); cbn; repeat split.
Qed.

Lemma App_two_keys_reverse_witness :
  exists a3,
    App.moveSnake
      (App.handleKeyPress "ArrowUp" (App.handleKeyPress "ArrowRight" App_after_first_food))
      [] = Some (a3, [])
    /\ App.gameOver a3 = true /\ App.isPlaying a3 = false
    /\ App.snake a3 = App.snake App_after_first_food
    /\ App.score a3 = App.score App_after_first_food.
Proof.
  refine (proj2 (App_two_keys_reverse App_after_first_food (mkCell 15 15) (mkCell 15 14)
                   [] [] _ _ _ _ _)).
  - reflexivity.
  - reflexivity.
  - right. left. reflexivity.
  - reflexivity.
  - reflexivity.
Defined.

(** ** The score display *)

Lemma scoreText_ok_below_10000 (n : Z) : 0 <= n < 10000 -> scoreText_ok n = true.
Proof.
  intros Hn.
  assert (Hall : forallb scoreText_ok (map Z.of_nat (seq 0 (Z.to_nat 10000))) = true)
    by (vm_compute; reflexivity).
  rewrite forallb_forall in Hall.
  apply Hall. apply in_map_iff. exists (Z.to_nat n). split; [lia|].
  apply in_seq. lia.
Qed.

(** X19. For a number from 0 to 9999 the text shown on the score line has
    exactly four characters and reads back, as a decimal numeral, as that
    number. *)
Theorem scoreText_four_digits (n : Z) :
  0 <= n < 10000 ->
  String.length (scoreText n) = 4%nat
  /\ exists d, NilZero.int_of_string (scoreText n) = Some d /\ Z.of_int d = n.
Proof.
  intros Hn. pose proof (scoreText_ok_below_10000 n Hn) as Hok.
  unfold scoreText_ok in Hok. apply andb_true_iff in Hok. destruct Hok as [Hlen Hread].
  split; [apply Nat.eqb_eq; exact Hlen|].
  destruct (NilZero.int_of_string (scoreText n)) as [d|]; [|discriminate].
  exists d. split; [reflexivity | apply Z.eqb_eq; exact Hread].
Qed.

Lemma scoreText_four_digits_witness :
  String.length (scoreText 37) = 4%nat
  /\ exists d, NilZero.int_of_string (scoreText 37) = Some d /\ Z.of_int d = 37.
Proof. apply (scoreText_four_digits 37). lia. Defined.

(** X20. In every reachable state of [SnakeGame.jsx] the score and the
    high score are both shown with exactly four characters. *)
Theorem reachable_scores_fit_display (st : State) :
  reachable st ->
  String.length (scoreText (score st)) = 4%nat
  /\ String.length (scoreText (highScore st)) = 4%nat.
Proof.
  intros H. pose proof (reachable_Inv st H) as HI.
  pose proof (Inv_score_bounds st HI) as Hs.
  pose proof (Inv_highScore st HI) as Hh.
  assert (Hlen : forall n, 0 <= n < 10000 -> String.length (scoreText n) = 4%nat).
  { intros n Hn. pose proof (scoreText_ok_below_10000 n Hn) as Hok.
    unfold scoreText_ok in Hok. apply andb_true_iff in Hok.
    apply Nat.eqb_eq. apply Hok. }
  split; apply Hlen; lia.
Qed.

Lemma reachable_scores_fit_display_witness :
  String.length (scoreText (score after_lost_game)) = 4%nat
  /\ String.length (scoreText (highScore after_lost_game)) = 4%nat.
Proof.
  exact (reachable_scores_fit_display after_lost_game reachable_after_lost_game).
Defined.

(** ** More on the tick and on direction requests *)

(** X21. A playing tick from a state whose food is off the snake leaves
    the food off every segment behind the head, and off the head as well
    when the score did not change. *)
Theorem tick_keeps_food_off_body (st st' : State) (rand rand' : list Cell) :
  gameState st = playing ->
  ~ In (food st) (snake st) ->
  moveSnake st rand = Some (st', rand') ->
  ~ In (food st') (tl (snake st'))
  /\ (score st' = score st -> ~ In (food st') (snake st')).
Proof.
  intros Hp Hf Hm. split.
  - exact (food_off_body_after_tick st st' rand rand' Hp Hf Hm).
  - exact (food_off_snake_after_slide st st' rand rand' Hp Hf Hm).
Qed.

Lemma tick_keeps_food_off_body_witness :
  ~ In (food after_first_food) (tl (snake after_first_food)).
Proof.
  refine (proj1 (tick_keeps_food_off_body
                   (mkState [mkCell 15 14] (mkCell 15 15) (mkCell 0 1)
                            0 0 normal playing None)
                   after_first_food [mkCell 15 15] [] _ _ _)).
  - reflexivity.
  - simpl. intros [H | []]. discriminate H.
  - reflexivity.
Defined.

(** X22. A tick fails to return only while [generateFood] is sampling:
    the game is being played, the new head is free and on the food, and
    every supplied draw is on the snake. *)
Theorem tick_waits_only_for_food (st : State) (rand : list Cell) :
  moveSnake st rand = None <->
  gameState st = playing
  /\ exists segment0 body,
       snake st = segment0 :: body
       /\ in_grid (advance segment0 (direction st))
       /\ ~ In (advance segment0 (direction st)) (snake st)
       /\ advance segment0 (direction st) = food st
       /\ Forall (fun c => In c (snake st)) rand.
Proof.
  split.
  - intros Hm.
    destruct (GameState_eqb (gameState st) playing) eqn:Eg.
    2:{ unfold moveSnake in Hm. rewrite Eg in Hm. discriminate. }
    assert (Hp : gameState st = playing)
      by (destruct (gameState st); (reflexivity || discriminate)).
    split; [exact Hp|]. rewrite (moveSnake_playing _ _ Hp) in Hm.
    destruct (snake st) as [|segment0 body] eqn:Hs.
    { unfold updateSnake in Hm. rewrite Hs in Hm. discriminate. }
    exists segment0, body. split; [reflexivity|].
    rewrite (updateSnake_cons _ _ _ _ Hs) in Hm. cbv zeta in Hm.
    destruct (hits_wall (advance segment0 (direction st))) eqn:Ew; [discriminate|].
    destruct (existsb (same_cell (advance segment0 (direction st))) (snake st)) eqn:Es;
      [discriminate|].
    destruct ((x (advance segment0 (direction st)) =? x (food st))
              && (y (advance segment0 (direction st)) =? y (food st))) eqn:Ef;
      [|discriminate].
    destruct (generateFood (snake st) rand) as [[nf r]|] eqn:Egen; [discriminate|].
    apply hits_wall_false in Ew. apply some_same_cell_notin in Es.
    apply generateFood_none in Egen. rewrite Hs in Es, Egen.
    repeat split; try assumption; try apply Ew.
    apply andb_true_iff in Ef. destruct Ef as [E1 E2]. apply Z.eqb_eq in E1, E2.
    destruct (food st); unfold advance in *; simpl in *. congruence.
  - intros (Hp & segment0 & body & Hs & Hg & Hn & Hf & Hall).
    rewrite (moveSnake_playing _ _ Hp), (updateSnake_cons _ _ _ _ Hs). cbv zeta.
    apply hits_wall_false in Hg. rewrite Hg.
    apply some_same_cell_notin in Hn. rewrite Hn.
    rewrite <- Hf, !Z.eqb_refl. cbn [andb].
    apply generateFood_none in Hall. rewrite Hall. reflexivity.
Qed.

Lemma opposite_differs (d : Cell) : isDirection d -> d <> opposite d.
Proof.
  intros [-> | [-> | [-> | ->]]]; discriminate.
Qed.

(** X23. A single direction request never turns the snake around: when
    the direction is a unit vector, neither [changeDirection] (a swipe)
    nor the key handler, with whatever key, sets it to its opposite. *)
Theorem one_request_never_reverses (key : string) (st : State) :
  isDirection (direction st) ->
  direction (changeDirection key st) <> opposite (direction st)
  /\ direction (handleKeyDown key st) <> opposite (direction st).
Proof.
  intros Hd.
  assert (Hc : forall s, direction s = direction st ->
                         direction (changeDirection key s) <> opposite (direction st)).
  { intros s Hs. unfold changeDirection. rewrite Hs.
    destruct Hd as [Hd | [Hd | [Hd | Hd]]]; rewrite Hd in *; cbn;
      repeat match goal with
             | |- context [if ?b then _ else _] => destruct b
             end; cbn; rewrite ?Hs; unfold opposite; cbn;
      intros H; injection H; lia. }
  split; [apply Hc; reflexivity|].
  destruct (handleKeyDown_cases key st) as [-> | [-> | ->]].
  - destruct (togglePause_frame st) as (_ & _ & -> & _). apply opposite_differs, Hd.
  - apply opposite_differs, Hd.
  - apply Hc. reflexivity.
Qed.

Lemma one_request_never_reverses_witness :
  direction (changeDirection "ArrowUp" after_first_food)
  <> opposite (direction after_first_food)
  /\ direction (handleKeyDown "ArrowUp" after_first_food)
     <> opposite (direction after_first_food).
Proof.
  apply (one_request_never_reverses "ArrowUp" after_first_food).
  right. left. reflexivity.
Defined.
